(** * The SLCAN driver of pyuavcan ([uavcan/driver/slcan.py])

    A shallow embedding of the adapter I/O code: the stream parser of the
    receive thread, the frame encoder and the transmit thread, the adapter
    handshake and teardown, and the facade (start-up, [receive], [send],
    [close]), followed by theorems about them.

    Conventions.
    - [bytes] objects are lists of integers (each byte an integer 0..255,
      as indexing a [bytes] gives in Python 3); positions and lengths
      are [Z], because the parser computes with signed positions and
      Python indexing gives a meaning to negative ones.
    - The code is embedded as Python 3 runs it ([py2_compat] is false).
    - The builtins the parser calls ([int(_, 16)], [bytes.decode],
      [binascii.a2b_hex], [%]-formatting, indexing and slicing) follow
      CPython 3 (3.6 or later: underscores are accepted between digits);
      the decimal-digit and white-space tables are those of Unicode 14.
    - A [while True] loop whose number of iterations is not bounded by the
      code takes a [fuel] argument and answers [None] when it runs out. *)

From Stdlib Require Import String Ascii ZArith List Bool Lia QArith.
Import ListNotations.
Open Scope Z_scope.

(** ** Exceptions and results *)

Inductive exn : Type :=
| DriverError (msg : string)
| KeyError (key : Z)
| ValueError
| UnicodeDecodeError
| IndexError
| BinasciiError
| TypeError
| QueueFull.

Inductive res (A : Type) : Type :=
| Ok (a : A)
| Raise (e : exn).
Arguments Ok {A} a.
Arguments Raise {A} e.

Definition res_bind {A B} (r : res A) (k : A -> res B) : res B :=
  match r with
  | Ok a => k a
  | Raise e => Raise e
  end.

(** ** The Python builtins used by the driver *)

Module Py.

Definition bytes := list Z.

Definition ord (c : ascii) : Z := Z.of_N (N_of_ascii c).

(** [b"..."] for printable text; [CR] is appended where the source writes
    [\r]. *)
Definition b (s : string) : bytes := map ord (list_ascii_of_string s).

Definition len (s : bytes) : Z := Z.of_nat (length s).

(** [s[i]]: a negative index counts from the end; out of range raises. *)
Definition getitem (s : bytes) (i : Z) : res Z :=
  let j := if i <? 0 then i + len s else i in
  if (j <? 0) || (len s <=? j) then Raise IndexError
  else match nth_error s (Z.to_nat j) with
       | Some x => Ok x
       | None => Raise IndexError
       end.

(** A slice bound is clamped into [0, len]; a negative one counts from the
    end first. *)
Definition slice_bound (n i : Z) : Z :=
  if i <? 0 then Z.max (i + n) 0 else Z.min i n.

(** [s[lo:hi]] *)
Definition slice (s : bytes) (lo hi : Z) : bytes :=
  let lo' := slice_bound (len s) lo in
  let hi' := slice_bound (len s) hi in
  firstn (Z.to_nat (hi' - lo')) (skipn (Z.to_nat lo') s).

(** [s[lo:]] *)
Definition slice_from (s : bytes) (lo : Z) : bytes :=
  skipn (Z.to_nat (slice_bound (len s) lo)) s.

(** [x in s] for an integer [x] and a bytes object [s]. *)
Definition contains (s : bytes) (x : Z) : bool := existsb (Z.eqb x) s.

(** *** [bytes.decode()]: strict UTF-8 *)

Definition is_cont (c : Z) : bool := (128 <=? c) && (c <=? 191).

Definition between (lo c hi : Z) : bool := (lo <=? c) && (c <=? hi).

Fixpoint utf8 (s : bytes) : option (list Z) :=
  match s with
  | [] => Some []
  | b0 :: t0 =>
      if b0 <? 128 then option_map (cons b0) (utf8 t0)
      else if between 194 b0 223 then
        match t0 with
        | b1 :: t1 =>
            if is_cont b1
            then option_map (cons ((b0 - 192) * 64 + (b1 - 128))) (utf8 t1)
            else None
        | _ => None
        end
      else if between 224 b0 239 then
        match t0 with
        | b1 :: b2 :: t2 =>
            if between (if b0 =? 224 then 160 else 128) b1
                       (if b0 =? 237 then 159 else 191) && is_cont b2
            then option_map
                   (cons ((b0 - 224) * 4096 + (b1 - 128) * 64 + (b2 - 128)))
                   (utf8 t2)
            else None
        | _ => None
        end
      else if between 240 b0 244 then
        match t0 with
        | b1 :: b2 :: b3 :: t3 =>
            if between (if b0 =? 240 then 144 else 128) b1
                       (if b0 =? 244 then 143 else 191)
               && is_cont b2 && is_cont b3
            then option_map
                   (cons ((b0 - 240) * 262144 + (b1 - 128) * 4096
                          + (b2 - 128) * 64 + (b3 - 128)))
                   (utf8 t3)
            else None
        | _ => None
        end
      else None
  end.

Definition decode (s : bytes) : res (list Z) :=
  match utf8 s with
  | Some cs => Ok cs
  | None => Raise UnicodeDecodeError
  end.

(** *** [int(_, 16)] *)

(** White space of the C locale, skipped around the digits. *)
Definition is_space (c : Z) : bool := between 9 c 13 || (c =? 32).

(** The value of a digit in base 16, if it is one. *)
Definition hexval (c : Z) : option Z :=
  if between 48 c 57 then Some (c - 48)
  else if between 65 c 70 then Some (c - 55)
  else if between 97 c 102 then Some (c - 87)
  else None.

Fixpoint lstrip (s : list Z) : list Z :=
  match s with
  | c :: t => if is_space c then lstrip t else s
  | [] => []
  end.

(** Digits with single underscores between them; [seen] tells whether a
    digit was read, [us] whether an underscore is refused next (at the
    start and after another one).  Stops at the first other character and
    returns what follows; there must be a digit, and no underscore last. *)
Fixpoint digits (s : list Z) (us seen : bool) (acc : Z) : option (Z * list Z) :=
  match s with
  | c :: t =>
      if c =? 95 then (if us then None else digits t true seen acc)
      else match hexval c with
           | Some d => digits t false true (acc * 16 + d)
           | None => if us || negb seen then None else Some (acc, s)
           end
  | [] => if us || negb seen then None else Some (acc, [])
  end.

(** An optional [0x] or [0X] and one optional underscore after it, then
    the digits, then white space only. *)
Definition unsigned_literal (s : list Z) : option Z :=
  let body :=
    match s with
    | z :: x :: t =>
        if (z =? 48) && ((x =? 120) || (x =? 88))
        then match t with
             | u :: t' => if u =? 95 then t' else t
             | [] => t
             end
        else s
    | _ => s
    end in
  match digits body true false 0 with
  | Some (v, rest) => match lstrip rest with [] => Some v | _ => None end
  | None => None
  end.

(** The parser of integer literals on characters below 128: white space,
    an optional sign, the literal. *)
Definition int16_ascii (s : list Z) : res Z :=
  let r :=
    match lstrip s with
    | c :: t =>
        if c =? 43 then unsigned_literal t
        else if c =? 45 then option_map Z.opp (unsigned_literal t)
        else unsigned_literal (c :: t)
    | [] => unsigned_literal []
    end in
  match r with
  | Some v => Ok v
  | None => Raise ValueError
  end.

(** [int(b, 16)] for a bytes object [b]. *)
Definition int16_bytes (s : bytes) : res Z := int16_ascii s.

(** Code points with the white-space property, above 127. *)
Definition unicode_space (c : Z) : bool :=
  existsb (Z.eqb c) [133; 160; 5760; 8232; 8233; 8239; 8287; 12288]
  || between 8192 c 8202.

(** First code points of the runs of ten decimal digits, above 127. *)
Definition decimal_runs : list Z :=
  [1632; 1776; 1984; 2406; 2534; 2662; 2790; 2918; 3046; 3174; 3302; 3430;
   3558; 3664; 3792; 3872; 4160; 4240; 6112; 6160; 6470; 6608; 6784; 6800;
   6992; 7088; 7232; 7248; 42528; 43216; 43264; 43472; 43504; 43600; 44016;
   65296; 66720; 68912; 69734; 69872; 69942; 70096; 70384; 70736; 70864;
   71248; 71360; 71472; 71904; 72016; 72784; 73040; 73120; 92768; 92864;
   93008; 120782; 120792; 120802; 120812; 120822; 123200; 123632; 125264;
   130032].

Definition unicode_decimal (c : Z) : option Z :=
  match find (fun s => between s c (s + 9)) decimal_runs with
  | Some s => Some (c - s)
  | None => None
  end.

(** A character of a [str] as the integer parser sees it: characters below
    127 as they are, other white space as a blank, other decimal digits as
    the ASCII digit, anything else as [?]. *)
Definition to_ascii (c : Z) : Z :=
  if c <? 127 then c
  else if unicode_space c then 32
  else match unicode_decimal c with
       | Some d => 48 + d
       | None => 63
       end.

(** [int(s, 16)] for a [str] [s], given by its code points. *)
Definition int16_str (s : list Z) : res Z := int16_ascii (map to_ascii s).

(** *** [binascii] *)

Fixpoint a2b_hex (s : bytes) : res bytes :=
  match s with
  | [] => Ok []
  | [_] => Raise BinasciiError
  | h :: l :: t =>
      match hexval h, hexval l with
      | Some x, Some y => res_bind (a2b_hex t) (fun r => Ok ((x * 16 + y) :: r))
      | _, _ => Raise BinasciiError
      end
  end.

Definition lower_digit (d : Z) : Z := if d <? 10 then 48 + d else 87 + d.
Definition upper_digit (d : Z) : Z := if d <? 10 then 48 + d else 55 + d.

Definition b2a_hex (s : bytes) : bytes :=
  flat_map (fun x => [lower_digit (x / 16); lower_digit (x mod 16)]) s.

(** *** [%]-formatting of integers *)

(** The [w] low hex digits of [n], most significant first. *)
Fixpoint hex_fixed (w : nat) (n : Z) : bytes :=
  match w with
  | O => []
  | S w' => hex_fixed w' (n / 16) ++ [upper_digit (n mod 16)]
  end.

Definition hex_width (n : Z) : nat :=
  if n =? 0 then 1%nat else Z.to_nat (Z.log2 n / 4 + 1).

(** ['%0wX' % n]: at least [w] characters, padded with zeros after the
    sign. *)
Definition format_0X (w : nat) (n : Z) : bytes :=
  if n <? 0
  then 45 :: hex_fixed (Nat.max (w - 1) (hex_width (- n))) (- n)
  else hex_fixed (Nat.max w (hex_width n)) n.

Fixpoint dec_digits (fuel : nat) (n : Z) : bytes :=
  match fuel with
  | O => []
  | S fuel' =>
      if n <? 10 then [48 + n]
      else dec_digits fuel' (n / 10) ++ [48 + n mod 10]
  end.

(** ['%d' % n] *)
Definition format_d (n : Z) : bytes :=
  if n <? 0 then 45 :: dec_digits (S (Z.to_nat (Z.log2 (- n)))) (- n)
  else dec_digits (S (Z.to_nat (Z.log2 n))) n.

End Py.

Abbreviation bytes := Py.bytes.

(** ** Constants of the module *)

Definition DEFAULT_BITRATE : Z := 1000000.
Definition ACK_TIMEOUT : Q := 1 # 2.
Definition ACK : bytes := [13].
Definition NACK : bytes := [7].
Definition IO_PROCESS_INIT_TIMEOUT : Q := 5 # 1.
Definition IPC_SIGNAL_INIT_OK : string := "init_ok".
Definition IPC_COMMAND_STOP : string := "stop".

(** The carriage return that ends every line of the protocol. *)
Definition CR : Z := 13.

(** ** CAN frames

    Modelled from the spec: the class [CANFrame] is declared in
    [common.py]; it holds an identifier, a payload and the extended flag.
    A frame built by the receive thread also carries two host time stamps,
    which the clock estimators derive from the hardware time stamp of the
    fragment (or which are the local clocks when there is none): the
    embedding keeps the hardware counter, in milliseconds, in their place. *)

Record CANFrame : Type := mkCANFrame {
  frame_id : Z;
  frame_data : bytes;
  frame_extended : bool;
  frame_ts_hardware : option Z
}.

(** ** The parsing logic of [_rx_thread] *)

(** How one pass through the [try] block ends. *)
Inductive attempt : Type :=
| Break                              (* not enough data yet: leave the loop *)
| Except (e : exn) (pos : Z)         (* an exception, and [pos] when it was raised *)
| Parsed (frame : CANFrame) (pos : Z). (* no exception: the [else] branch runs *)

Notation "x <- e 'except' p ;; k" :=
  (match e with
   | Ok x => k
   | Raise err => Except err p
   end) (at level 61, e at next level, p at level 9, right associativity,
         only parsing).

(** The body of the [try] statement, with [pos] on a start marker. *)
Definition parse_message (buf : bytes) (buf_len pos : Z) : attempt :=
  m <- Py.getitem buf pos except pos ;;
  let id_len := if m =? 84 then 8 else 3 in
  let available_length := buf_len - pos in
  if available_length <? id_len + 2 then Break else
  s <- Py.decode (Py.slice buf (pos + 1) (pos + 1 + id_len)) except pos ;;
  packet_id <- Py.int16_str s except pos ;;
  c <- Py.getitem buf (pos + 1 + id_len) except pos ;;
  let packet_len := c - 48 in
  if packet_len >? 8 then Except (DriverError "Invalid packet length") pos else
  let total_length := 2 + id_len + packet_len * 2 + 1 in
  if available_length <? total_length then Break else
  t <- Py.getitem buf (pos + total_length - 1) except pos ;;
  let with_timestamp := Py.contains (Py.b "0123456789ABCDEF") t in
  let total_length := if with_timestamp then total_length + 3 else total_length in
  if with_timestamp && (available_length <? total_length) then Break else
  packet_data <- Py.a2b_hex (Py.slice buf (pos + 2 + id_len)
                                      (pos + 2 + id_len + packet_len * 2))
              except pos ;;
  let pos := pos + total_length in
  if with_timestamp then
    ts <- Py.int16_bytes (Py.slice buf (pos - 4) pos) except pos ;;
    Parsed (mkCANFrame packet_id packet_data (id_len =? 8) (Some ts)) pos
  else
    Parsed (mkCANFrame packet_id packet_data (id_len =? 8) None) pos.

(** [while pos < buf_len and buf[pos] not in b'Tt': pos += 1], unfolded
    [n] times; [buf_len - pos] times are enough. *)
Fixpoint skip_loop (n : nat) (buf : bytes) (buf_len pos : Z) : res Z :=
  match n with
  | O => Ok pos
  | S n' =>
      if pos <? buf_len then
        res_bind (Py.getitem buf pos) (fun c =>
          if negb (Py.contains (Py.b "Tt") c)
          then skip_loop n' buf buf_len (pos + 1)
          else Ok pos)
      else Ok pos
  end.

Definition find_marker (buf : bytes) (buf_len pos : Z) : res Z :=
  skip_loop (Z.to_nat (buf_len - pos)) buf buf_len pos.

(** The inner [while True] loop.  [out] collects the frames handed to
    [rx_queue.put_nowait], which is taken to have room.  The result is the
    final [pos], or the exception that leaves the loop. *)
Fixpoint parse_loop (fuel : nat) (buf : bytes) (buf_len pos : Z)
    (out : list CANFrame) : option (res Z * list CANFrame) :=
  match fuel with
  | O => None
  | S fuel' =>
      match find_marker buf buf_len pos with
      | Raise e => Some (Raise e, out)
      | Ok pos =>
          if pos >=? buf_len then Some (Ok pos, out)
          else match parse_message buf buf_len pos with
               | Break => Some (Ok pos, out)
               | Except _ pos => parse_loop fuel' buf buf_len (pos + 1) out
               | Parsed frame pos => parse_loop fuel' buf buf_len pos (out ++ [frame])
               end
      end
  end.

(** What travels on the queues between the two processes. *)
Inductive ipc : Type :=
| IpcFrame (frame : CANFrame)
| IpcString (s : string)
| IpcException (e : exn).

(** One turn of the outer loop of [_rx_thread]: the bytes just read are
    appended to [buf], the buffer is parsed from position 0 and cut at the
    final position.  An exception empties the buffer and is queued. *)
Definition rx_turn (fuel : nat) (buf chunk : bytes) : option (bytes * list ipc) :=
  let buf := buf ++ chunk in
  match parse_loop fuel buf (Py.len buf) 0 [] with
  | None => None
  | Some (Ok pos, out) => Some (Py.slice_from buf pos, map IpcFrame out)
  | Some (Raise e, out) => Some ([], map IpcFrame out ++ [IpcException e])
  end.

(** [_rx_thread] over the successive results of [conn.read], starting with
    the buffer [buf]; returns the buffer left and everything queued. *)
Fixpoint _rx_thread (fuel : nat) (reads : list bytes) (buf : bytes)
    : option (bytes * list ipc) :=
  match reads with
  | [] => Some (buf, [])
  | chunk :: reads' =>
      match rx_turn fuel buf chunk with
      | None => None
      | Some (buf', q) =>
          match _rx_thread fuel reads' buf' with
          | None => None
          | Some (buf'', q') => Some (buf'', q ++ q')
          end
      end
  end.

(** ** The parsing loop and the bounded queue

    [rx_queue] holds at most [RX_QUEUE_SIZE] objects and the main process
    takes them out while the receive thread runs, so whether a call of
    [put_nowait] finds room is for the surroundings to say: [accepts k]
    tells it for the call number [k] (from 0).  A refused call raises
    [queue.Full] in the [else] branch, where the inner [except] does not
    catch it: it leaves the inner loop for the outer handler.  The result
    also counts the calls made. *)
Fixpoint parse_loop_q (accepts : nat -> bool) (fuel : nat) (buf : bytes)
    (buf_len pos : Z) (k : nat) (out : list CANFrame)
    : option (res Z * list CANFrame * nat) :=
  match fuel with
  | O => None
  | S fuel' =>
      match find_marker buf buf_len pos with
      | Raise e => Some (Raise e, out, k)
      | Ok pos =>
          if pos >=? buf_len then Some (Ok pos, out, k)
          else match parse_message buf buf_len pos with
               | Break => Some (Ok pos, out, k)
               | Except _ pos =>
                   parse_loop_q accepts fuel' buf buf_len (pos + 1) k out
               | Parsed frame pos =>
                   if accepts k
                   then parse_loop_q accepts fuel' buf buf_len pos (S k)
                                     (out ++ [frame])
                   else Some (Raise QueueFull, out, S k)
               end
      end
  end.

(** One turn of the outer loop with the bounded queue.  The outer handler
    empties the buffer and tries to queue the exception; if that call is
    refused too, nothing more happens. *)
Definition rx_turn_q (accepts : nat -> bool) (fuel : nat) (buf chunk : bytes)
    : option (bytes * list ipc) :=
  let buf := buf ++ chunk in
  match parse_loop_q accepts fuel buf (Py.len buf) 0 0 [] with
  | None => None
  | Some (Ok pos, out, _) => Some (Py.slice_from buf pos, map IpcFrame out)
  | Some (Raise e, out, k) =>
      Some ([], map IpcFrame out ++ (if accepts k then [IpcException e] else []))
  end.

(** ** The serial connection

    [conn_rx] lists what the successive calls of [conn.read(1)] return
    ([None]: the time-out expired and the result is empty; after the list,
    the adapter stays silent).  [flushInput] drops input that no read ever
    returns, so it leaves [conn_rx] alone.  [conn_log] records the other
    calls in order. *)

Inductive conn_op : Type :=
| Write (data : bytes)
| Flush
| FlushInput
| Close.

Record conn : Type := mkConn {
  conn_timeout : option Q;
  conn_rx : list (option Z);
  conn_log : list conn_op
}.

Definition M (A : Type) : Type := conn -> res A * conn.

Definition ret {A} (a : A) : M A := fun c => (Ok a, c).
Definition raise {A} (e : exn) : M A := fun c => (Raise e, c).
Definition bind {A B} (m : M A) (k : A -> M B) : M B :=
  fun c => match m c with
           | (Ok a, c') => k a c'
           | (Raise e, c') => (Raise e, c')
           end.

Notation "m ;; k" := (bind m (fun _ => k))
  (at level 61, right associativity).

Definition call (op : conn_op) : M unit :=
  fun c => (Ok tt, mkConn (conn_timeout c) (conn_rx c) (conn_log c ++ [op])).

Definition set_timeout (t : Q) : M unit :=
  fun c => (Ok tt, mkConn (Some t) (conn_rx c) (conn_log c)).

(** [time.sleep]: time is not part of the connection. *)
Definition sleep (t : Q) : M unit := ret tt.

(** ** Logic of the IO process *)

(** The loop of [_wait_for_ack] over what is left to read. *)
Fixpoint ack_loop (rx : list (option Z)) : res unit * list (option Z) :=
  match rx with
  | [] => (Raise (DriverError "SLCAN ACK timeout"), [])
  | None :: rx' => (Raise (DriverError "SLCAN ACK timeout"), rx')
  | Some x :: rx' =>
      if list_eq_dec Z.eq_dec [x] NACK
      then (Raise (DriverError "SLCAN NACK in response"), rx')
      else if list_eq_dec Z.eq_dec [x] ACK then (Ok tt, rx')
      else ack_loop rx'
  end.

Definition _wait_for_ack : M unit :=
  set_timeout ACK_TIMEOUT ;;
  fun c => let (r, rx') := ack_loop (conn_rx c) in
           (r, mkConn (conn_timeout c) rx' (conn_log c)).

Definition speed_code_table : list (Z * Z) :=
  [(1000000, 8); (8000000, 7); (500000, 6); (250000, 5); (125000, 4);
   (100000, 3); (50000, 2); (20000, 1); (10000, 0)].

(** The subscription of the dictionary literal; a missing key raises. *)
Definition speed_code (bitrate : option Z) : res Z :=
  let key := match bitrate with Some x => x | None => DEFAULT_BITRATE end in
  match find (fun kv => fst kv =? key) speed_code_table with
  | Some kv => Ok (snd kv)
  | None => Raise (KeyError key)
  end.

Definition _init_adapter (bitrate : option Z) : M unit :=
  match speed_code bitrate with
  | Raise e => raise e
  | Ok code =>
      sleep (1 # 10) ;;
      call FlushInput ;;
      call (Write (Py.b "S" ++ Py.format_d code ++ [CR])) ;;
      call Flush ;;
      _wait_for_ack ;;
      call (Write (Py.b "O" ++ [CR])) ;;
      call Flush ;;
      _wait_for_ack ;;
      sleep (1 # 10) ;;
      call FlushInput
  end.

Definition _stop_adapter : M unit :=
  call (Write (Py.b "C" ++ [CR])) ;;
  call Flush.

(** The line [_send_frame] writes. *)
Definition frame_line (frame : CANFrame) : bytes :=
  (if frame_extended frame
   then Py.b "T" ++ Py.format_0X 8 (frame_id frame)
   else Py.b "t" ++ Py.format_0X 3 (frame_id frame))
  ++ Py.format_d (Py.len (frame_data frame))
  ++ Py.b2a_hex (frame_data frame)
  ++ [CR].

Definition _send_frame (frame : CANFrame) : M unit :=
  call (Write (frame_line frame)) ;;
  call Flush.

(** [_io_process] from the opening of the port to the moment the process
    is ready: the result of the initialization, the connection, and what
    was put on [rx_queue].  When [_init_adapter] raises, the [finally]
    clause stops the adapter and closes the port, and the exception leaves
    the process; the receive thread was never started. *)
Definition _io_process (bitrate : option Z) (c : conn)
    : res unit * conn * list ipc :=
  match _init_adapter bitrate c with
  | (Ok _, c') => (Ok tt, c', [IpcString IPC_SIGNAL_INIT_OK])
  | (Raise e, c') =>
      let (_, c'') := (_stop_adapter ;; call Close) c' in
      (Raise e, c'', [])
  end.

(** ** Logic of the main process *)

(** [a > b] on clock readings and time-outs. *)
Definition Qgtb (a b : Q) : bool := negb (Qle_bool a b).

(** [q.get(timeout=...)] once everything the other side publishes is in
    [q]: the head, or [None] for [queue.Empty]. *)
Definition queue_get (q : list ipc) : option ipc * list ipc :=
  match q with
  | x :: q' => (Some x, q')
  | [] => (None, [])
  end.

Definition is_init_ok (sig : option ipc) : bool :=
  match sig with
  | Some (IpcString s) => String.eqb s IPC_SIGNAL_INIT_OK
  | _ => false
  end.

(** The loop of [SLCAN.__init__] that waits for the IO process.  [clock]
    lists the successive readings of [time.monotonic()] inside the loop;
    [None] when the readings run out before the loop ends.  The result
    comes with what is left of [rx_queue] and what was put on
    [tx_queue]. *)
Fixpoint wait_init (clock : list Q) (deadline : Q) (rx_queue : list ipc)
    : option (res unit * list ipc * list ipc) :=
  let (sig, rx_queue') := queue_get rx_queue in
  if is_init_ok sig then Some (Ok tt, rx_queue', [])
  else match clock with
       | [] => None
       | now :: clock' =>
           if Qgtb now deadline
           then Some (Raise (DriverError "IO process did not confirm initialization"),
                      rx_queue', [IpcString IPC_COMMAND_STOP])
           else wait_init clock' deadline rx_queue'
       end.

(** The facade: whether the IO process is alive, the two queues, and the
    time-outs of the calls of [_rx_queue.get] made by [receive]. *)
Record SLCAN : Type := mkSLCAN {
  proc_alive : bool;
  _rx_queue : list ipc;
  _tx_queue : list ipc;
  rx_waits : list Q
}.

Definition _check_alive (self : SLCAN) : res unit :=
  if proc_alive self then Ok tt else Raise (DriverError "IO process is dead :(").

(** [SLCAN.__init__]: the IO process runs on the connection [c]; the first
    reading of [clock] gives the deadline.  The process is alive afterwards
    exactly when its initialization went through.  What the IO process
    publishes up to its readiness is taken to be on the queue when the wait
    begins: this is exact when the initialization fails, since nothing is
    published then. *)
Definition start (bitrate : option Z) (c : conn) (clock : list Q)
    : option (res SLCAN) :=
  let '(r, _, published) := _io_process bitrate c in
  match clock with
  | [] => None
  | t0 :: clock' =>
      let deadline := (t0 + IO_PROCESS_INIT_TIMEOUT)%Q in
      match wait_init clock' deadline published with
      | None => None
      | Some (Raise e, _, _) => Some (Raise e)
      | Some (Ok _, rx_queue, tx_queue) =>
          let self := mkSLCAN (match r with Ok _ => true | Raise _ => false end)
                              rx_queue tx_queue [] in
          Some (res_bind (_check_alive self) (fun _ => Ok self))
      end
  end.

(** The argument [timeout] of [receive]: [None] or a number. *)
Inductive timeout_arg : Type :=
| TNone
| TNum (t : Q).

(** [max(timeout, m)]: the first argument unless the second is greater;
    the comparison with [None] raises. *)
Definition py_max (timeout : timeout_arg) (m : Q) : res Q :=
  match timeout with
  | TNone => Raise TypeError
  | TNum t => Ok (if Qgtb m t then m else t)
  end.

(** [SLCAN.receive]; [Ok None] is the plain [return] on [queue.Empty]. *)
Definition receive (self : SLCAN) (timeout : timeout_arg)
    : res (option CANFrame) * SLCAN :=
  match _check_alive self with
  | Raise e => (Raise e, self)
  | Ok _ =>
      match py_max timeout (1 # 1000) with
      | Raise e => (Raise e, self)
      | Ok t =>
          let (obj, q) := queue_get (_rx_queue self) in
          let self' := mkSLCAN (proc_alive self) q (_tx_queue self)
                               (rx_waits self ++ [t]) in
          match obj with
          | None => (Ok None, self')
          | Some (IpcFrame frame) => (Ok (Some frame), self')
          | Some (IpcException e) => (Raise e, self')
          | Some (IpcString s) =>
              (Raise (DriverError ("Unexpected entity in IPC channel: '" ++ s ++ "'")),
               self')
          end
      end
  end.

(** ** The transmit thread and the rest of the facade *)

(** The message of the error for an object that is neither a frame nor
    the stop command.  [repr] stands for the text that [%r] gives for an
    object: it is Python's and is not modelled. *)
Definition unknown_command (repr : ipc -> string) (command : ipc) : exn :=
  DriverError ("IO process received unknown IPC command: " ++ repr command).

(** [_tx_thread] over the successive results of [tx_queue.get] ([None] for
    [queue.Empty]); the list ends where [termination_condition()] turns
    true.  Returns the connection, what was put on [rx_queue], and the
    results that were not consumed because the stop command came first. *)
Fixpoint _tx_thread (repr : ipc -> string) (gets : list (option ipc)) (c : conn)
    : conn * list ipc * list (option ipc) :=
  match gets with
  | [] => (c, [], [])
  | None :: gets' => _tx_thread repr gets' c
  | Some command :: gets' =>
      let carry_on (r : res unit) (c' : conn) :=
        let '(c'', published, unread) := _tx_thread repr gets' c' in
        match r with
        | Ok _ => (c'', published, unread)
        | Raise ex => (c'', IpcException ex :: published, unread)
        end in
      match command with
      | IpcFrame frame => let (r, c') := _send_frame frame c in carry_on r c'
      | IpcString s =>
          if String.eqb s IPC_COMMAND_STOP then (c, [], gets')
          else carry_on (Raise (unknown_command repr command)) c
      | IpcException _ => carry_on (Raise (unknown_command repr command)) c
      end
  end.

(** The calls [_io_process] makes on the port, the reads of the receive
    thread apart, after those of [log]: the initialization, the transmit
    loop if it went through, and in both cases the [finally] clause.  The
    receive thread, started in between, sets the time-out of the port and
    reads from it but makes none of these calls. *)
Definition _io_process_log (repr : ipc -> string) (bitrate : option Z)
    (gets : list (option ipc)) (c : conn) : res unit * list conn_op :=
  match _init_adapter bitrate c with
  | (Ok _, c1) =>
      let '(c2, _, _) := _tx_thread repr gets c1 in
      let (_, c3) := (_stop_adapter ;; call Close) c2 in
      (Ok tt, conn_log c3)
  | (Raise e, c1) =>
      let (_, c3) := (_stop_adapter ;; call Close) c1 in
      (Raise e, conn_log c3)
  end.

(** [SLCAN.send].  Modelled from the spec: the constructor of [CANFrame]
    (in [common.py]) keeps the three values as they are.  The queue is
    taken to have room, so [put] does not block. *)
Definition send (self : SLCAN) (message_id : Z) (message : bytes)
    (extended : bool) : res unit * SLCAN :=
  match _check_alive self with
  | Raise e => (Raise e, self)
  | Ok _ =>
      let frame := mkCANFrame message_id message extended None in
      (Ok tt, mkSLCAN (proc_alive self) (_rx_queue self)
                      (_tx_queue self ++ [IpcFrame frame]) (rx_waits self))
  end.

(** [SLCAN.close]: the stop command is queued and the process joined,
    after which it is not alive. *)
Definition close (self : SLCAN) : SLCAN :=
  if proc_alive self
  then mkSLCAN false (_rx_queue self)
               (_tx_queue self ++ [IpcString IPC_COMMAND_STOP]) (rx_waits self)
  else self.

(** ** Vocabulary of the statements *)

(** The bit rates that have a speed code. *)
Definition all_rates : list Z :=
  [10000; 20000; 50000; 100000; 125000; 250000; 500000; 1000000; 8000000].

(** A byte that is neither the acknowledgement nor its negative. *)
Definition junk_byte (x : Z) : Prop := x <> 13 /\ x <> 7.

(** What [SLCAN.__init__] raises when the deadline passes. *)
Definition init_timeout_error : exn :=
  DriverError "IO process did not confirm initialization".

(** A frame that can go on the bus: the identifier fits its width, the
    payload has at most eight bytes. *)
Definition valid_frame (f : CANFrame) : Prop :=
  0 <= frame_id f < (if frame_extended f then 2 ^ 29 else 2 ^ 11)
  /\ Py.len (frame_data f) <= 8
  /\ Forall (fun x => 0 <= x < 256) (frame_data f).

(** The frame the receive thread builds for a line that carries [f] and no
    hardware time stamp. *)
Definition received (f : CANFrame) : CANFrame :=
  mkCANFrame (frame_id f) (frame_data f) (frame_extended f) None.

(** The first byte of the line of [f]: [T] or [t]. *)
Definition marker (f : CANFrame) : Z := if frame_extended f then 84 else 116.

(** The identifier of [f] as eight or three upper-case digits. *)
Definition id_field (f : CANFrame) : bytes :=
  Py.hex_fixed (if frame_extended f then 8 else 3) (frame_id f).

(** The bytes of several frames in a row. *)
Definition stream (fs : list CANFrame) : bytes := flat_map frame_line fs.

(** [tail] is the beginning of the line of the next frame, and not all of
    it. *)
Definition stalled (tail : bytes) (fs : list CANFrame) : Prop :=
  match fs with
  | [] => tail = []
  | f :: _ => exists more, frame_line f = tail ++ more /\ more <> []
  end.

(** The line of the end-to-end example and the frame it carries. *)
Definition example_line : bytes := Py.b "t1238DEADBEEF12345678" ++ [CR].

Definition example_frame : CANFrame :=
  mkCANFrame 0x123 [0xDE; 0xAD; 0xBE; 0xEF; 0x12; 0x34; 0x56; 0x78] false None.

(** One of the characters [0-9A-F]. *)
Definition upper_hex (t : Z) : Prop := 48 <= t <= 57 \/ 65 <= t <= 70.

(** A hexadecimal digit as [int(_, 16)] and [a2b_hex] read it, in either
    case. *)
Definition hex_digit (t : Z) : bool :=
  match Py.hexval t with
  | Some _ => true
  | None => false
  end.

(** A byte that does not start a fragment. *)
Definition no_marker (x : Z) : Prop := x <> 84 /\ x <> 116.

(** The line of [f] without its carriage return. *)
Definition frame_text (f : CANFrame) : bytes :=
  marker f :: id_field f ++ (48 + Py.len (frame_data f))
    :: Py.b2a_hex (frame_data f).

(** Lines, each after some bytes of noise. *)
Definition noisy_stream (l : list (bytes * CANFrame)) : bytes :=
  flat_map (fun p => fst p ++ frame_line (snd p)) l.

(** What the calls logged in [log] write to the port, in order. *)
Definition written (log : list conn_op) : bytes :=
  flat_map (fun op => match op with Write d => d | _ => [] end) log.

(** The calls [_send_frame] makes for the frames of [fs], in order. *)
Definition sent_lines (fs : list CANFrame) : list conn_op :=
  flat_map (fun f => [Write (frame_line f); Flush]) fs.

(** The frames among the results of [tx_queue.get], and the errors the
    transmit thread reports for the rest. *)
Definition frames_in (gets : list (option ipc)) : list CANFrame :=
  flat_map (fun g => match g with Some (IpcFrame f) => [f] | _ => [] end) gets.

Definition errors_in (repr : ipc -> string) (gets : list (option ipc))
    : list ipc :=
  flat_map (fun g => match g with
                     | Some (IpcFrame _) | None => []
                     | Some command => [IpcException (unknown_command repr command)]
                     end) gets.

(** [send] for each frame of [fs] in turn. *)
Definition send_all (self : SLCAN) (fs : list CANFrame) : SLCAN :=
  fold_left (fun s f => snd (send s (frame_id f) (frame_data f) (frame_extended f)))
            fs self.

(** [n] calls of [receive] in a row: their results and the facade left. *)
Fixpoint receive_n (n : nat) (self : SLCAN) (timeout : timeout_arg)
    : list (res (option CANFrame)) * SLCAN :=
  match n with
  | O => ([], self)
  | S n' =>
      let (r, self') := receive self timeout in
      let (rs, self'') := receive_n n' self' timeout in
      (r :: rs, self'')
  end.

(** The calls of a complete initialization. *)
Definition init_calls (code : Z) : list conn_op :=
  [FlushInput; Write [83; 48 + code; 13]; Flush; Write [79; 13]; Flush; FlushInput].

(** The calls of the [finally] clause of [_io_process]. *)
Definition teardown_calls : list conn_op := [Write [67; 13]; Flush; Close].


(** * Properties *)

(** ** The adapter handshake *)

Lemma speed_code_cases (bitrate : Z) :
  speed_code (Some bitrate) =
  match bitrate with
  | 10000 => Ok 0
  | 20000 => Ok 1
  | 50000 => Ok 2
  | 100000 => Ok 3
  | 125000 => Ok 4
  | 250000 => Ok 5
  | 500000 => Ok 6
  | 8000000 => Ok 7
  | 1000000 => Ok 8
  | _ => Raise (KeyError bitrate)
  end.
Proof.
  unfold speed_code, speed_code_table, find, fst, snd.
  repeat match goal with
         | |- context [?k =? bitrate] =>
             destruct (Z.eqb_spec k bitrate) as [<- | ?]; [reflexivity |]
         end.
  repeat match goal with
         | |- context [match bitrate with _ => _ end] =>
             destruct bitrate as [| p | p]; try reflexivity
         | p : positive |- _ =>
             destruct p; try reflexivity; try congruence
         end.
Qed.

Lemma speed_code_range (bitrate : option Z) (code : Z) :
  speed_code bitrate = Ok code -> 0 <= code <= 8.
Proof.
  unfold speed_code.
  destruct (find _ speed_code_table) as [kv |] eqn:F; [| discriminate].
  intros [= <-]. apply find_some in F as [I _].
  unfold speed_code_table in I; simpl in I.
  repeat (destruct I as [<- | I]; [simpl; lia |]). destruct I.
Qed.

Lemma format_d_digit (n : Z) : 0 <= n <= 9 -> Py.format_d n = [48 + n].
Proof.
  intros H. unfold Py.format_d.
  destruct (Z.ltb_spec n 0); [lia |].
  simpl. destruct (Z.ltb_spec n 10); [reflexivity | lia].
Qed.

Lemma wait_for_ack_log (c : conn) :
  conn_log (snd (_wait_for_ack c)) = conn_log c.
Proof.
  unfold _wait_for_ack, bind, set_timeout. cbn [conn_rx conn_log].
  destruct (ack_loop (conn_rx c)). reflexivity.
Qed.

(** C3, as the specification states it, fails: the table does not map into
    the codes 0..7, since 1 Mbit/s has the code 8. *)
Lemma speed_code_exceeds_7 :
  ~ (forall bitrate code, speed_code (Some bitrate) = Ok code -> 0 <= code <= 7).
Proof.
  intros H. specialize (H 1000000 8 eq_refl). lia.
Qed.

(** C3, amended: [_init_adapter] looks the bit rate (1 Mbit/s when none is
    given) up in a table of nine entries, 10k, 20k, 50k, 100k, 125k, 250k,
    500k to the codes 0..6, 8M to 7 and 1M to 8; any other bit rate raises
    [KeyError] before anything is written; otherwise the first command
    written is [S], the code as one digit, and a carriage return, followed
    by a flush. *)
Theorem init_adapter_speed_code (bitrate : option Z) (c : conn) :
  let key := match bitrate with Some x => x | None => DEFAULT_BITRATE end in
  speed_code bitrate =
    match key with
    | 10000 => Ok 0 | 20000 => Ok 1 | 50000 => Ok 2 | 100000 => Ok 3
    | 125000 => Ok 4 | 250000 => Ok 5 | 500000 => Ok 6
    | 8000000 => Ok 7 | 1000000 => Ok 8
    | _ => Raise (KeyError key)
    end
  /\ match speed_code bitrate with
     | Ok code =>
         0 <= code <= 8 /\
         exists rest,
           conn_log (snd (_init_adapter bitrate c)) =
           conn_log c ++ [FlushInput; Write [83; 48 + code; 13]; Flush] ++ rest
     | Raise e =>
         e = KeyError key /\ ~ In key all_rates /\
         _init_adapter bitrate c = (Raise e, c)
     end.
Proof.
  intros key. split.
  - destruct bitrate as [x |]; [apply speed_code_cases | reflexivity].
  - destruct (speed_code bitrate) as [code | e] eqn:E.
    + pose proof (speed_code_range _ _ E) as R. split; [exact R |].
      unfold _init_adapter. rewrite E.
      rewrite format_d_digit by lia.
      unfold bind, sleep, ret, call; cbn [conn_log conn_rx conn_timeout].
      match goal with
      | |- context [_wait_for_ack ?c0] =>
          pose proof (wait_for_ack_log c0) as L1;
          destruct (_wait_for_ack c0) as [[[] | e1] c1]
      end; cbn [snd conn_log] in L1 |- *.
      * match goal with
        | |- context [_wait_for_ack ?c0] =>
            pose proof (wait_for_ack_log c0) as L2;
            destruct (_wait_for_ack c0) as [[[] | e2] c2]
        end; cbn [snd conn_log] in L2 |- *; rewrite ?L2, L1;
          rewrite <- !app_assoc; cbn; eexists; reflexivity.
      * rewrite L1, <- !app_assoc. cbn. exists []. reflexivity.
    + unfold _init_adapter. rewrite E. unfold raise.
      assert (K : e = KeyError key /\ ~ In key all_rates).
      { assert (E' : speed_code (Some key) = Raise e)
          by (destruct bitrate; exact E).
        rewrite speed_code_cases in E'. split.
        - repeat match type of E' with
                 | match ?k with _ => _ end = _ => destruct k; try discriminate
                 end; congruence.
        - unfold all_rates. intros I. simpl in I.
          repeat (destruct I as [<- | I]; [discriminate E' |]). exact I. }
      destruct K as [K1 K2]. repeat split; assumption.
Qed.

Lemma ack_loop_junk (junk : list Z) (rx : list (option Z)) :
  Forall junk_byte junk -> ack_loop (map Some junk ++ rx) = ack_loop rx.
Proof.
  induction 1 as [| x junk [H13 H7] _ IH]; [reflexivity |].
  cbn [map app ack_loop].
  destruct (list_eq_dec Z.eq_dec [x] NACK) as [E | _];
    [injection E as E; contradiction |].
  destruct (list_eq_dec Z.eq_dec [x] ACK) as [E | _];
    [injection E as E; contradiction |].
  exact IH.
Qed.

Lemma ack_loop_ok (rx rx' : list (option Z)) :
  ack_loop rx = (Ok tt, rx') ->
  exists junk, Forall junk_byte junk /\ rx = map Some junk ++ Some 13 :: rx'.
Proof.
  induction rx as [| [x |] rx IH]; cbn [ack_loop]; try discriminate.
  destruct (list_eq_dec Z.eq_dec [x] NACK) as [E | N]; [discriminate |].
  destruct (list_eq_dec Z.eq_dec [x] ACK) as [E | A].
  - intros [= <-]. injection E as ->. exists []. split; [constructor | reflexivity].
  - intros H. destruct (IH H) as (junk & F & ->).
    exists (x :: junk). split; [| reflexivity].
    constructor; [| exact F].
    split; intros ->; [apply A | apply N]; reflexivity.
Qed.

Lemma wait_for_ack_run (c : conn) :
  _wait_for_ack c =
  (fst (ack_loop (conn_rx c)),
   mkConn (Some ACK_TIMEOUT) (snd (ack_loop (conn_rx c))) (conn_log c)).
Proof.
  unfold _wait_for_ack, bind, set_timeout. cbn [conn_rx conn_log conn_timeout].
  destruct (ack_loop (conn_rx c)). reflexivity.
Qed.

(** C7: [_wait_for_ack] reads byte after byte and drops those that are
    neither ACK nor NACK; it ends with the time-out error when a read
    returns nothing, with the NACK error on NACK, and returns only on ACK.
    A NACK in answer to the bit-rate command makes [_init_adapter] fail
    with that error when only the flush of the input and the [S] command
    with its flush were issued: the [O] command is not written. *)
Theorem wait_for_ack_outcomes
    (junk : list Z) (rest : list (option Z)) (c : conn) (bitrate : option Z) :
  Forall junk_byte junk ->
  let before tail := mkConn (conn_timeout c) (map Some junk ++ tail) (conn_log c) in
  let after tail := mkConn (Some ACK_TIMEOUT) tail (conn_log c) in
  _wait_for_ack (before (Some 13 :: rest)) = (Ok tt, after rest)
  /\ _wait_for_ack (before (Some 7 :: rest)) =
       (Raise (DriverError "SLCAN NACK in response"), after rest)
  /\ _wait_for_ack (before (None :: rest)) =
       (Raise (DriverError "SLCAN ACK timeout"), after rest)
  /\ _wait_for_ack (before []) =
       (Raise (DriverError "SLCAN ACK timeout"), after [])
  /\ (forall c1 c2, _wait_for_ack c1 = (Ok tt, c2) ->
        exists junk', Forall junk_byte junk' /\
                      conn_rx c1 = map Some junk' ++ Some 13 :: conn_rx c2)
  /\ (forall code, speed_code bitrate = Ok code ->
        _init_adapter bitrate (before (Some 7 :: rest)) =
          (Raise (DriverError "SLCAN NACK in response"),
           mkConn (Some ACK_TIMEOUT) rest
                  (conn_log c ++ [FlushInput; Write [83; 48 + code; 13]; Flush]))).
Proof.
  intros J before after.
  repeat split.
  - unfold before, after. rewrite wait_for_ack_run. cbn [conn_rx conn_log].
    rewrite ack_loop_junk by exact J. reflexivity.
  - unfold before, after. rewrite wait_for_ack_run. cbn [conn_rx conn_log].
    rewrite ack_loop_junk by exact J. reflexivity.
  - unfold before, after. rewrite wait_for_ack_run. cbn [conn_rx conn_log].
    rewrite ack_loop_junk by exact J. reflexivity.
  - unfold before, after. rewrite wait_for_ack_run. cbn [conn_rx conn_log].
    rewrite ack_loop_junk by exact J. reflexivity.
  - intros c1 c2 H. rewrite wait_for_ack_run in H.
    injection H as H1 H2. subst c2. cbn [conn_rx].
    apply ack_loop_ok. destruct (ack_loop (conn_rx c1)) as [r rx']. cbn in *.
    subst r. reflexivity.
  - intros code E. unfold _init_adapter. rewrite E.
    pose proof (speed_code_range _ _ E) as R.
    rewrite format_d_digit by lia.
    unfold bind, sleep, ret, call, before. cbn [conn_log conn_rx conn_timeout].
    rewrite wait_for_ack_run. cbn [conn_rx conn_log].
    rewrite ack_loop_junk by exact J. cbn.
    rewrite <- !app_assoc. reflexivity.
Qed.

Lemma wait_for_ack_outcomes_witness :
  Forall junk_byte [65; 10] /\
  _init_adapter (Some 500000) (mkConn None [Some 65; Some 10; Some 7; Some 13] [])
  = (Raise (DriverError "SLCAN NACK in response"),
     mkConn (Some ACK_TIMEOUT) [Some 13] [FlushInput; Write [83; 54; 13]; Flush]).
Proof.
  assert (J : Forall junk_byte [65; 10])
    by (repeat constructor; unfold junk_byte; lia).
  split; [exact J |].
  exact (proj2 (proj2 (proj2 (proj2 (proj2
    (wait_for_ack_outcomes [65; 10] [Some 13] (mkConn None [] []) (Some 500000) J)))))
    6 eq_refl).
Defined.

(** ** Start-up of the facade *)

Lemma wait_init_empty (clock : list Q) (deadline : Q) r :
  wait_init clock deadline [] = Some r ->
  r = (Raise init_timeout_error, [], [IpcString IPC_COMMAND_STOP]).
Proof.
  induction clock as [| now clock IH]; cbn; [discriminate |].
  destruct (Qgtb now deadline); [intros [= <-]; reflexivity | exact IH].
Qed.

Lemma wait_init_late (early : list Q) (late deadline : Q) (clock : list Q) :
  Forall (fun t => (t <= deadline)%Q) early ->
  (deadline < late)%Q ->
  wait_init (early ++ late :: clock) deadline [] =
  Some (Raise init_timeout_error, [], [IpcString IPC_COMMAND_STOP]).
Proof.
  intros F L. induction F as [| t early Ht _ IH]; cbn.
  - unfold Qgtb. destruct (Qle_bool late deadline) eqn:E; [| reflexivity].
    apply Qle_bool_iff in E. exfalso. exact (Qlt_not_le _ _ L E).
  - unfold Qgtb at 1. apply Qle_bool_iff in Ht. rewrite Ht. exact IH.
Qed.

Lemma io_process_failed (bitrate : option Z) (c c' : conn) (e : exn) :
  _init_adapter bitrate c = (Raise e, c') ->
  _io_process bitrate c =
  (Raise e,
   mkConn (conn_timeout c') (conn_rx c')
          (conn_log c' ++ [Write [67; 13]; Flush; Close]),
   []).
Proof.
  intros H. unfold _io_process. rewrite H.
  unfold _stop_adapter, bind, call. cbn. rewrite <- !app_assoc. reflexivity.
Qed.

(** C8, as the specification states it, fails: with a bit rate that is not
    in the table the initialization raises [KeyError], and no reading of
    the clock makes [SLCAN.__init__] raise that error. *)
Lemma start_hides_configuration_error :
  fst (_init_adapter (Some 12345) (mkConn None [] [])) = Raise (KeyError 12345)
  /\ ~ (exists clock,
          start (Some 12345) (mkConn None [] []) clock
          = Some (Raise (KeyError 12345))).
Proof.
  split; [reflexivity |].
  intros [clock H]. unfold start in H.
  rewrite (io_process_failed (Some 12345) (mkConn None [] []) (mkConn None [] [])
             (KeyError 12345) eq_refl) in H.
  destruct clock as [| t0 clock]; [discriminate |].
  destruct (wait_init clock _ []) as [r |] eqn:W; [| discriminate].
  apply wait_init_empty in W. subst r. discriminate.
Qed.

(** C8, amended: when [_init_adapter] raises, the IO process stops the
    adapter, closes the port and ends without putting anything on the
    queue; [SLCAN.__init__] then never raises the error of the
    initialization: once a reading of the monotonic clock is past the
    deadline (the first reading plus [IO_PROCESS_INIT_TIMEOUT]) it raises
    the [DriverError] that the IO process did not confirm initialization,
    and it raises nothing else. *)
Theorem start_after_failed_init
    (bitrate : option Z) (c c' : conn) (e : exn)
    (t0 : Q) (early : list Q) (late : Q) (clock : list Q) :
  _init_adapter bitrate c = (Raise e, c') ->
  Forall (fun t => (t <= t0 + IO_PROCESS_INIT_TIMEOUT)%Q) early ->
  (t0 + IO_PROCESS_INIT_TIMEOUT < late)%Q ->
  _io_process bitrate c =
    (Raise e,
     mkConn (conn_timeout c') (conn_rx c')
            (conn_log c' ++ [Write [67; 13]; Flush; Close]),
     [])
  /\ start bitrate c (t0 :: early ++ late :: clock) = Some (Raise init_timeout_error)
  /\ (forall readings r, start bitrate c readings = Some r ->
                         r = Raise init_timeout_error).
Proof.
  intros H F L. pose proof (io_process_failed _ _ _ _ H) as P.
  split; [exact P |]. split.
  - unfold start. rewrite P. rewrite (wait_init_late _ _ _ _ F L). reflexivity.
  - intros readings r. unfold start. rewrite P.
    destruct readings as [| t1 readings]; [discriminate |].
    destruct (wait_init readings _ []) as [w |] eqn:W; [| discriminate].
    apply wait_init_empty in W. subst w. intros [= <-]. reflexivity.
Qed.

Lemma start_after_failed_init_witness :
  start (Some 12345) (mkConn None [] []) [0; 1; 5; 6]%Q
  = Some (Raise init_timeout_error).
Proof.
  refine (proj1 (proj2
    (start_after_failed_init (Some 12345) (mkConn None [] []) (mkConn None [] [])
       (KeyError 12345) 0%Q [1; 5]%Q 6%Q [] eq_refl _ _))).
  - repeat constructor; discriminate.
  - reflexivity.
Defined.

(** ** [receive] *)

(** C10: on a live session [receive] with [timeout=None] raises the
    [TypeError] of [max(None, 0.001)] and leaves the queue untouched; with
    a number it waits on the queue, for that number or for 0.001 if that
    is greater. *)
Theorem receive_without_timeout (self : SLCAN) :
  proc_alive self = true ->
  receive self TNone = (Raise TypeError, self)
  /\ (forall t,
        rx_waits (snd (receive self (TNum t))) =
          rx_waits self ++ [if Qgtb (1 # 1000) t then 1 # 1000 else t]
        /\ _rx_queue (snd (receive self (TNum t))) = snd (queue_get (_rx_queue self))).
Proof.
  intros A. unfold receive, _check_alive. rewrite A. cbn [py_max].
  split; [reflexivity |].
  intros t. destruct (queue_get (_rx_queue self)) as [[[f | s | e] |] q];
    split; reflexivity.
Qed.

Lemma receive_without_timeout_witness :
  receive (mkSLCAN true [IpcString "x"] [] []) TNone
  = (Raise TypeError, mkSLCAN true [IpcString "x"] [] []).
Proof.
  exact (proj1 (receive_without_timeout (mkSLCAN true [IpcString "x"] [] []) eq_refl)).
Defined.

(** ** Indexing and slicing a buffer laid out as a concatenation *)

Section Layout.

Variables (buf pre : bytes).

Lemma len_app (s t : bytes) : Py.len (s ++ t) = Py.len s + Py.len t.
Proof. unfold Py.len. rewrite length_app. lia. Qed.

Lemma len_nonneg (s : bytes) : 0 <= Py.len s.
Proof. unfold Py.len. lia. Qed.

Lemma getitem_at (x : Z) (post : bytes) (i : Z) :
  buf = pre ++ x :: post -> i = Py.len pre -> Py.getitem buf i = Ok x.
Proof.
  intros -> ->. unfold Py.getitem. cbv zeta.
  assert (E1 : (Py.len pre <? 0) = false)
    by (apply Z.ltb_ge, len_nonneg).
  assert (E2 : (Py.len (pre ++ x :: post) <=? Py.len pre) = false).
  { apply Z.leb_gt. rewrite len_app. unfold Py.len. cbn [length]. lia. }
  rewrite E1. cbv iota. rewrite E1, E2. cbn [orb].
  unfold Py.len. rewrite Nat2Z.id.
  rewrite nth_error_app2 by lia. rewrite Nat.sub_diag. reflexivity.
Qed.

Lemma slice_at (mid post : bytes) (lo hi : Z) :
  buf = pre ++ mid ++ post -> lo = Py.len pre -> hi = lo + Py.len mid ->
  Py.slice buf lo hi = mid.
Proof.
  intros -> -> ->. unfold Py.slice, Py.slice_bound. cbv zeta.
  pose proof (len_nonneg pre). pose proof (len_nonneg mid).
  pose proof (len_nonneg post).
  assert (E1 : (Py.len pre <? 0) = false) by (apply Z.ltb_ge; lia).
  assert (E2 : (Py.len pre + Py.len mid <? 0) = false) by (apply Z.ltb_ge; lia).
  rewrite E1, E2, !len_app, !Z.min_l by lia.
  replace (Py.len pre + Py.len mid - Py.len pre) with (Py.len mid) by lia.
  unfold Py.len. rewrite !Nat2Z.id.
  rewrite skipn_app, skipn_all, Nat.sub_diag. cbn [skipn app].
  rewrite firstn_app, firstn_all, Nat.sub_diag. cbn [firstn]. apply app_nil_r.
Qed.

Lemma slice_from_at (post : bytes) (lo : Z) :
  buf = pre ++ post -> lo = Py.len pre -> Py.slice_from buf lo = post.
Proof.
  intros -> ->. unfold Py.slice_from, Py.slice_bound.
  pose proof (len_nonneg pre). pose proof (len_nonneg post).
  assert (E1 : (Py.len pre <? 0) = false) by (apply Z.ltb_ge; lia).
  rewrite E1, len_app, Z.min_l by lia. unfold Py.len. rewrite Nat2Z.id.
  rewrite skipn_app, skipn_all, Nat.sub_diag. reflexivity.
Qed.

End Layout.

(** ** Hexadecimal text *)

Lemma digit_cases (d : Z) :
  0 <= d < 16 ->
  d = 0 \/ d = 1 \/ d = 2 \/ d = 3 \/ d = 4 \/ d = 5 \/ d = 6 \/ d = 7 \/
  d = 8 \/ d = 9 \/ d = 10 \/ d = 11 \/ d = 12 \/ d = 13 \/ d = 14 \/ d = 15.
Proof. lia. Qed.

Ltac each_digit d H :=
  let C := fresh "C" in
  pose proof (digit_cases d H) as C;
  repeat (destruct C as [C | C]; [subst d |]); [.. | subst d].

(** What the parsers make of one digit written by the encoder. *)
Lemma upper_digit_facts (d : Z) :
  0 <= d < 16 ->
  Py.hexval (Py.upper_digit d) = Some d
  /\ (Py.upper_digit d =? 95) = false
  /\ Py.upper_digit d < 127
  /\ (Py.upper_digit d <? 128) = true
  /\ Py.is_space (Py.upper_digit d) = false
  /\ (Py.upper_digit d =? 43) = false
  /\ (Py.upper_digit d =? 45) = false
  /\ (Py.upper_digit d =? 120) = false
  /\ (Py.upper_digit d =? 88) = false.
Proof.
  intros H. each_digit d H; vm_compute; repeat split; reflexivity.
Qed.

Lemma lower_digit_hexval (d : Z) :
  0 <= d < 16 -> Py.hexval (Py.lower_digit d) = Some d.
Proof. intros H. each_digit d H; reflexivity. Qed.

Lemma hex_fixed_length (w : nat) (n : Z) : length (Py.hex_fixed w n) = w.
Proof.
  revert n. induction w as [| w IH]; intros n; cbn [Py.hex_fixed]; [reflexivity |].
  rewrite length_app, IH. cbn. lia.
Qed.

Lemma mod16 (n : Z) : 0 <= n mod 16 < 16.
Proof. apply Z.mod_pos_bound. lia. Qed.

(** The text of [hex_fixed] is plain ASCII, so decoding and the mapping of
    characters leave it as it is. *)
Lemma hex_fixed_utf8 (w : nat) (n : Z) (rest : bytes) :
  Py.utf8 (Py.hex_fixed w n ++ rest) =
  option_map (app (Py.hex_fixed w n)) (Py.utf8 rest).
Proof.
  revert n rest. induction w as [| w IH]; intros n rest; cbn [Py.hex_fixed].
  - cbn [app]. destruct (Py.utf8 rest); reflexivity.
  - rewrite <- app_assoc, IH. cbn [app Py.utf8].
    destruct (upper_digit_facts (n mod 16) (mod16 n)) as (_ & _ & _ & -> & _).
    destruct (Py.utf8 rest) as [r |]; cbn [option_map]; [| reflexivity].
    rewrite <- app_assoc. reflexivity.
Qed.

Lemma hex_fixed_to_ascii (w : nat) (n : Z) :
  map Py.to_ascii (Py.hex_fixed w n) = Py.hex_fixed w n.
Proof.
  revert n. induction w as [| w IH]; intros n; cbn [Py.hex_fixed]; [reflexivity |].
  rewrite map_app, IH. cbn [map]. unfold Py.to_ascii.
  destruct (upper_digit_facts (n mod 16) (mod16 n)) as (_ & _ & L & _).
  destruct (Z.ltb_spec (Py.upper_digit (n mod 16)) 127); [reflexivity | lia].
Qed.

Lemma digits_hex_fixed (w : nat) (n : Z) (rest : list Z) (us seen : bool) (acc : Z) :
  Py.digits (Py.hex_fixed w n ++ rest) us seen acc =
  match w with
  | O => Py.digits rest us seen acc
  | S _ => Py.digits rest false true (acc * 16 ^ Z.of_nat w + n mod 16 ^ Z.of_nat w)
  end.
Proof.
  revert n rest. induction w as [| w IH]; intros n rest; [reflexivity |].
  cbn [Py.hex_fixed]. rewrite <- app_assoc, IH. cbn [app].
  destruct (upper_digit_facts (n mod 16) (mod16 n)) as (V & U & _).
  assert (P : 16 ^ Z.of_nat (S w) = 16 * 16 ^ Z.of_nat w)
    by (rewrite Nat2Z.inj_succ, Z.pow_succ_r by lia; reflexivity).
  destruct w as [| w'].
  - cbn [Py.digits]. rewrite U, V. reflexivity.
  - cbn [Py.digits]. rewrite U, V. f_equal. rewrite P.
    set (p := 16 ^ Z.of_nat (S w')) in *.
    assert (0 < p) by (subst p; apply Z.pow_pos_nonneg; lia).
    rewrite (Z.rem_mul_r n 16 p) by lia. lia.
Qed.

Lemma hex_fixed_digits (w : nat) (n : Z) :
  Forall (fun c => exists d, c = Py.upper_digit d /\ 0 <= d < 16) (Py.hex_fixed w n).
Proof.
  revert n. induction w as [| w IH]; intros n; cbn [Py.hex_fixed]; [constructor |].
  apply Forall_app. split; [apply IH |].
  repeat constructor. exists (n mod 16). split; [reflexivity | apply mod16].
Qed.

(** [int(_, 16)] reads back what ['%0wX'] wrote. *)
Lemma int16_hex_fixed (w : nat) (n : Z) :
  0 <= n < 16 ^ Z.of_nat (S w) ->
  res_bind (Py.decode (Py.hex_fixed (S w) n)) Py.int16_str = Ok n.
Proof.
  intros R. unfold Py.decode.
  rewrite <- (app_nil_r (Py.hex_fixed (S w) n)) at 1.
  rewrite hex_fixed_utf8. cbn [Py.utf8 option_map res_bind]. rewrite app_nil_r.
  unfold Py.int16_str. rewrite hex_fixed_to_ascii.
  assert (D : Py.digits (Py.hex_fixed (S w) n) true false 0 = Some (n, [])).
  { rewrite <- (app_nil_r (Py.hex_fixed (S w) n)), digits_hex_fixed.
    cbn [Py.digits orb negb]. rewrite Z.mod_small by lia. reflexivity. }
  pose proof (hex_fixed_digits (S w) n) as F.
  pose proof (hex_fixed_length (S w) n) as L.
  unfold Py.int16_ascii, Py.unsigned_literal.
  destruct (Py.hex_fixed (S w) n) as [| z t]; [discriminate L |].
  inversion F as [| ? ? (d & -> & Rd) F']; subst.
  destruct (upper_digit_facts d Rd) as (_ & _ & _ & _ & Sp & P & M & _).
  cbn [Py.lstrip]. rewrite Sp, P, M.
  destruct t as [| x t]; [rewrite D; reflexivity |].
  inversion F' as [| ? ? (dx & -> & Rx) _]; subst.
  destruct (upper_digit_facts dx Rx) as (_ & _ & _ & _ & _ & _ & _ & -> & ->).
  rewrite andb_false_r, D. reflexivity.
Qed.

Lemma hex_width_bound (w : nat) (n : Z) :
  0 <= n < 16 ^ Z.of_nat (S w) -> (Py.hex_width n <= S w)%nat.
Proof.
  intros [H0 H1]. unfold Py.hex_width.
  destruct (Z.eqb_spec n 0); [lia |].
  assert (L : Z.log2 n < 4 * Z.of_nat (S w)).
  { apply Z.log2_lt_pow2; [lia |].
    replace (2 ^ (4 * Z.of_nat (S w))) with (16 ^ Z.of_nat (S w)); [exact H1 |].
    change 16 with (2 ^ 4). rewrite <- Z.pow_mul_r by lia. reflexivity. }
  pose proof (Z.log2_nonneg n).
  assert (Z.log2 n / 4 < Z.of_nat (S w))
    by (apply Z.div_lt_upper_bound; lia).
  assert (0 <= Z.log2 n / 4) by (apply Z.div_pos; lia).
  lia.
Qed.

Lemma format_0X_fixed (w : nat) (n : Z) :
  0 <= n < 16 ^ Z.of_nat (S w) -> Py.format_0X (S w) n = Py.hex_fixed (S w) n.
Proof.
  intros H. unfold Py.format_0X.
  destruct (Z.ltb_spec n 0); [lia |].
  rewrite Nat.max_l by (apply hex_width_bound; exact H). reflexivity.
Qed.

Lemma b2a_hex_length (s : bytes) : Py.len (Py.b2a_hex s) = 2 * Py.len s.
Proof.
  unfold Py.len. induction s as [| x s IH]; [reflexivity |].
  cbn [Py.b2a_hex flat_map app length] in *. unfold Py.b2a_hex in IH. lia.
Qed.

Lemma a2b_b2a_hex (s : bytes) :
  Forall (fun x => 0 <= x < 256) s -> Py.a2b_hex (Py.b2a_hex s) = Ok s.
Proof.
  induction 1 as [| x s R _ IH]; [reflexivity |].
  cbn [Py.b2a_hex flat_map app Py.a2b_hex].
  assert (0 <= x / 16 < 16)
    by (split; [apply Z.div_pos | apply Z.div_lt_upper_bound]; lia).
  rewrite !lower_digit_hexval by (assumption || apply mod16).
  unfold Py.b2a_hex in IH. rewrite IH. cbn [res_bind].
  do 2 f_equal. pose proof (Z.div_mod x 16). lia.
Qed.

(** ** One pass of the parser over a well-formed fragment *)

Ltac layout :=
  solve [ subst; repeat (rewrite <- app_assoc || rewrite <- app_comm_cons);
          reflexivity
        | subst; unfold Py.len in *;
          repeat (progress cbn [length] in * || rewrite length_app in * );
          lia ].

Ltac decide_cmp :=
  match goal with
  | |- context [?a <? ?b] =>
      first [ rewrite (proj2 (Z.ltb_ge a b)) by lia
            | rewrite (proj2 (Z.ltb_lt a b)) by lia ]
  end.

Ltac at_index pre x post :=
  match goal with
  | |- context [Py.getitem ?s ?i] =>
      rewrite (getitem_at s pre x post i) by layout
  end.

Ltac at_slice pre mid post :=
  match goal with
  | |- context [Py.slice ?s ?lo ?hi] =>
      rewrite (slice_at s pre mid post lo hi) by layout
  end.

Lemma split_3 (s : bytes) :
  3 <= Py.len s ->
  exists r1 r2, s = r1 ++ r2 /\ Py.len r1 = 3 /\ firstn 3 s = r1.
Proof.
  intros H. exists (firstn 3 s), (skipn 3 s).
  split; [symmetry; apply firstn_skipn |]. split; [| reflexivity].
  unfold Py.len in *. rewrite firstn_length_le by lia. reflexivity.
Qed.

Lemma parse_message_fragment
    (buf pre : bytes) (m : Z) (idf : bytes) (n : Z) (payload : bytes)
    (t : Z) (rest : bytes) (pid : Z) (data : bytes) :
  buf = pre ++ m :: idf ++ (48 + n) :: payload ++ t :: rest ->
  Py.len idf = (if m =? 84 then 8 else 3) ->
  res_bind (Py.decode idf) Py.int16_str = Ok pid ->
  0 <= n <= 8 ->
  Py.len payload = 2 * n ->
  Py.a2b_hex payload = Ok data ->
  let pos := Py.len pre in
  let total := 2 + (if m =? 84 then 8 else 3) + 2 * n + 1 in
  parse_message buf (Py.len buf) pos =
    if Py.contains (Py.b "0123456789ABCDEF") t then
      if Py.len rest <? 3 then Break
      else match Py.int16_bytes (t :: firstn 3 rest) with
           | Ok ts => Parsed (mkCANFrame pid data (m =? 84) (Some ts)) (pos + total + 3)
           | Raise e => Except e (pos + total + 3)
           end
    else Parsed (mkCANFrame pid data (m =? 84) None) (pos + total).
Proof.
  intros Hbuf Hid Hpid Hn Hpay Hdata pos total.
  pose proof (len_nonneg rest) as Hrest.
  destruct (Py.decode idf) as [s |] eqn:Hdec; [| discriminate Hpid].
  cbn [res_bind] in Hpid.
  unfold parse_message. subst pos total.
  rewrite (getitem_at buf pre m _ _ Hbuf eq_refl).
  destruct (m =? 84) eqn:Em; cbv zeta;
    (assert (HL : Py.len buf = Py.len pre + Py.len idf + 2 * n + 3 + Py.len rest)
       by (subst buf; rewrite !len_app; unfold Py.len in *; cbn [length];
           rewrite !length_app; cbn [length]; rewrite length_app; cbn [length]; lia));
    decide_cmp;
    at_slice (pre ++ [m]) idf ((48 + n) :: payload ++ t :: rest);
    rewrite Hdec, Hpid;
    at_index (pre ++ m :: idf) (48 + n) (payload ++ t :: rest);
    replace (48 + n - 48) with n by lia;
    rewrite Z.gtb_ltb; decide_cmp; decide_cmp;
    at_index (pre ++ m :: idf ++ (48 + n) :: payload) t rest;
    at_slice (pre ++ m :: idf ++ [48 + n]) payload (t :: rest);
    rewrite Hdata;
    (destruct (Py.contains (Py.b "0123456789ABCDEF") t); cbn [andb]; cbv iota;
     [ destruct (Z.ltb_spec (Py.len rest) 3);
       [ decide_cmp; reflexivity
       | decide_cmp;
         destruct (split_3 rest) as (r1 & r2 & Hr & Hr1 & ->); [lia |];
         at_slice (pre ++ m :: idf ++ (48 + n) :: payload) (t :: r1) r2;
         destruct (Py.int16_bytes (t :: r1));
         f_equal; lia ]
     | f_equal; lia ]).
Qed.

(** ** The scanning loop *)

Lemma find_marker_here (buf : bytes) (buf_len pos m : Z) :
  Py.getitem buf pos = Ok m -> Py.contains (Py.b "Tt") m = true ->
  pos < buf_len -> find_marker buf buf_len pos = Ok pos.
Proof.
  intros G C L. unfold find_marker.
  destruct (Z.to_nat (buf_len - pos)) eqn:E; [lia |].
  cbn [skip_loop]. rewrite (proj2 (Z.ltb_lt pos buf_len) L), G.
  cbn [res_bind]. rewrite C. reflexivity.
Qed.

Lemma find_marker_end (buf : bytes) (buf_len pos : Z) :
  buf_len <= pos -> find_marker buf buf_len pos = Ok pos.
Proof.
  intros L. unfold find_marker.
  replace (Z.to_nat (buf_len - pos)) with O by lia. reflexivity.
Qed.

Lemma parse_loop_end (fuel : nat) (buf : bytes) (buf_len : Z) (out : list CANFrame) :
  parse_loop (S fuel) buf buf_len buf_len out = Some (Ok buf_len, out).
Proof.
  cbn [parse_loop]. rewrite find_marker_end by lia.
  rewrite Z.geb_leb, Z.leb_refl. reflexivity.
Qed.

Lemma parse_loop_at_marker (fuel : nat) (buf : bytes) (buf_len pos m : Z)
    (out : list CANFrame) :
  Py.getitem buf pos = Ok m -> Py.contains (Py.b "Tt") m = true ->
  pos < buf_len ->
  parse_loop (S fuel) buf buf_len pos out =
  match parse_message buf buf_len pos with
  | Break => Some (Ok pos, out)
  | Except _ pos' => parse_loop fuel buf buf_len (pos' + 1) out
  | Parsed frame pos' => parse_loop fuel buf buf_len pos' (out ++ [frame])
  end.
Proof.
  intros G C L. cbn [parse_loop]. rewrite (find_marker_here _ _ _ _ G C L).
  rewrite Z.geb_leb, (proj2 (Z.leb_gt buf_len pos) L). reflexivity.
Qed.

(** More fuel does not change a result. *)
Lemma parse_loop_more_fuel (fuel extra : nat) (buf : bytes) (buf_len pos : Z)
    (out : list CANFrame) r :
  parse_loop fuel buf buf_len pos out = Some r ->
  parse_loop (fuel + extra) buf buf_len pos out = Some r.
Proof.
  revert pos out. induction fuel as [| fuel IH]; intros pos out; [discriminate |].
  cbn [parse_loop Nat.add].
  destruct (find_marker buf buf_len pos) as [p |]; [| exact (fun H => H)].
  destruct (p >=? buf_len); [exact (fun H => H) |].
  destruct (parse_message buf buf_len p); [exact (fun H => H) | apply IH | apply IH].
Qed.

(** ** Lines written by the encoder *)

Lemma frame_line_layout (f : CANFrame) :
  valid_frame f ->
  frame_line f =
    marker f :: id_field f ++ (48 + Py.len (frame_data f))
      :: Py.b2a_hex (frame_data f) ++ [CR]
  /\ Py.len (id_field f) = (if marker f =? 84 then 8 else 3)
  /\ res_bind (Py.decode (id_field f)) Py.int16_str = Ok (frame_id f)
  /\ Py.a2b_hex (Py.b2a_hex (frame_data f)) = Ok (frame_data f)
  /\ (marker f =? 84) = frame_extended f
  /\ Py.contains (Py.b "Tt") (marker f) = true.
Proof.
  intros (Hid & Hlen & Hbytes).
  pose proof (len_nonneg (frame_data f)) as H0.
  unfold frame_line, marker, id_field.
  rewrite format_d_digit by lia.
  destruct (frame_extended f).
  - rewrite format_0X_fixed by (change (16 ^ Z.of_nat 8) with (2 ^ 32); lia).
    repeat split; try reflexivity; try (apply a2b_b2a_hex, Hbytes).
    apply int16_hex_fixed. change (16 ^ Z.of_nat 8) with (2 ^ 32). lia.
  - rewrite format_0X_fixed by (change (16 ^ Z.of_nat 3) with (2 ^ 12); lia).
    repeat split; try reflexivity; try (apply a2b_b2a_hex, Hbytes).
    apply int16_hex_fixed. change (16 ^ Z.of_nat 3) with (2 ^ 12). lia.
Qed.

Lemma frame_line_length (f : CANFrame) :
  valid_frame f ->
  Py.len (frame_line f) =
  2 + (if frame_extended f then 8 else 3) + 2 * Py.len (frame_data f) + 1.
Proof.
  intros V. destruct (frame_line_layout f V) as (-> & L & _ & _ & E & _).
  rewrite E in L. pose proof (b2a_hex_length (frame_data f)) as B.
  unfold Py.len in *. cbn [length]. rewrite length_app. cbn [length].
  rewrite length_app. cbn [length]. lia.
Qed.

(** A whole line at [pos], whatever follows: the frame is parsed and [pos]
    moves to the end of the line. *)
Lemma parse_message_line (f : CANFrame) (buf pre rest : bytes) :
  valid_frame f -> buf = pre ++ frame_line f ++ rest ->
  parse_message buf (Py.len buf) (Py.len pre) =
  Parsed (received f) (Py.len pre + Py.len (frame_line f)).
Proof.
  intros V Hbuf. rewrite (frame_line_length f V).
  destruct (frame_line_layout f V) as (E & L & I & A & X & _).
  pose proof V as (_ & Hlen & _). pose proof (len_nonneg (frame_data f)).
  rewrite (parse_message_fragment buf pre (marker f) (id_field f)
             (Py.len (frame_data f)) (Py.b2a_hex (frame_data f)) CR rest
             (frame_id f) (frame_data f)); try assumption.
  - cbn [Py.contains]. change (Py.contains (Py.b "0123456789ABCDEF") CR) with false.
    cbv iota. rewrite X. reflexivity.
  - rewrite Hbuf, E. repeat (rewrite <- app_assoc || rewrite <- app_comm_cons).
    reflexivity.
  - lia.
  - apply b2a_hex_length.
Qed.

Lemma prefix_split {A} (a b tail more : list A) :
  a ++ b = tail ++ more -> (length a <= length tail)%nat ->
  exists x, tail = a ++ x /\ b = x ++ more.
Proof.
  revert tail. induction a as [| h a IH]; intros tail E L.
  - exists tail. split; [reflexivity | exact E].
  - destruct tail as [| h' tail]; [cbn in L; lia |].
    cbn [app] in E. injection E as <- E. cbn [length] in L.
    destruct (IH tail E) as (x & -> & ->); [lia |].
    exists x. split; reflexivity.
Qed.

(** An unfinished line at [pos]: the parser waits for more. *)
Lemma partial_line_breaks (f : CANFrame) (buf pre tail more : bytes)
    (fuel : nat) (out : list CANFrame) :
  valid_frame f -> frame_line f = tail ++ more -> tail <> [] -> more <> [] ->
  buf = pre ++ tail ->
  parse_loop (S fuel) buf (Py.len buf) (Py.len pre) out = Some (Ok (Py.len pre), out).
Proof.
  intros V E Ht Hm Hbuf.
  destruct (frame_line_layout f V) as (Lay & L & I & _ & X & M).
  pose proof (frame_line_length f V) as LL.
  pose proof V as (_ & Hlen & _). pose proof (len_nonneg (frame_data f)) as H0.
  assert (Hmore : 0 < Py.len more)
    by (destruct more; [congruence | unfold Py.len; cbn [length]; lia]).
  assert (Hsum : Py.len tail + Py.len more = Py.len (frame_line f))
    by (rewrite E, len_app; reflexivity).
  destruct tail as [| m tail']; [congruence |].
  assert (Hm' : m = marker f) by (rewrite Lay in E; injection E as -> _; reflexivity).
  subst m.
  assert (G : Py.getitem buf (Py.len pre) = Ok (marker f))
    by (apply (getitem_at buf pre (marker f) tail'); [exact Hbuf | reflexivity]).
  assert (HL : Py.len buf = Py.len pre + Py.len (marker f :: tail'))
    by (rewrite Hbuf, len_app; reflexivity).
  rewrite (parse_loop_at_marker fuel buf (Py.len buf) (Py.len pre) (marker f) out G M)
    by (unfold Py.len in *; cbn [length] in *; lia).
  replace (parse_message buf (Py.len buf) (Py.len pre)) with Break; [reflexivity |].
  symmetry. unfold parse_message. rewrite G. cbv zeta.
  rewrite X in *.
  match goal with
  | |- context [?a <? ?b] => destruct (Z.ltb_spec a b) as [Short | Long]
  end; [reflexivity |].
  destruct (prefix_split (marker f :: id_field f ++ [48 + Py.len (frame_data f)])
              (Py.b2a_hex (frame_data f) ++ [CR]) (marker f :: tail') more)
    as (x & Hx & _).
  { rewrite <- E, Lay.
    repeat (rewrite <- app_assoc || rewrite <- app_comm_cons). reflexivity. }
  { cbn [length]. rewrite length_app. cbn [length].
    destruct (frame_extended f);
      unfold Py.len in *; cbn [length] in *; lia. }
  injection Hx as Hx.
  assert (Hbuf' : buf = pre ++ marker f :: id_field f
                          ++ (48 + Py.len (frame_data f)) :: x).
  { rewrite Hbuf, Hx. repeat (rewrite <- app_assoc || rewrite <- app_comm_cons).
    reflexivity. }
  destruct (Py.decode (id_field f)) as [s |] eqn:Hdec; [| discriminate I].
  cbn [res_bind] in I.
  clear Hbuf G. 
  destruct (frame_extended f);
    at_slice (pre ++ [marker f]) (id_field f) ((48 + Py.len (frame_data f)) :: x);
    rewrite Hdec, I;
    at_index (pre ++ marker f :: id_field f) (48 + Py.len (frame_data f)) x;
    replace (48 + Py.len (frame_data f) - 48) with (Py.len (frame_data f)) by lia;
    rewrite Z.gtb_ltb; decide_cmp;
    (assert (Hcut : Py.len buf - Py.len pre < Py.len (frame_line f))
       by (rewrite HL; lia));
    rewrite LL in Hcut; decide_cmp; reflexivity.
Qed.

Lemma stream_app (fs1 fs2 : list CANFrame) :
  stream (fs1 ++ fs2) = stream fs1 ++ stream fs2.
Proof. apply flat_map_app. Qed.

Lemma frame_line_nonempty (f : CANFrame) : frame_line f <> [].
Proof.
  unfold frame_line. destruct (frame_extended f); discriminate.
Qed.

Lemma stream_length (fs : list CANFrame) :
  (length fs <= length (stream fs))%nat.
Proof.
  induction fs as [| f fs IH]; [reflexivity |].
  cbn [stream flat_map length]. rewrite length_app.
  pose proof (frame_line_nonempty f).
  destruct (frame_line f); [congruence |]. unfold stream in IH. cbn [length]. lia.
Qed.

(** The loop over whole lines followed by an unfinished one: every frame is
    queued and [pos] stops where the unfinished line begins. *)
Lemma parse_lines (fs next : list CANFrame) (tail : bytes) :
  Forall valid_frame fs -> Forall valid_frame next -> stalled tail next ->
  forall (pre buf : bytes) (fuel : nat) (out : list CANFrame),
    buf = pre ++ stream fs ++ tail -> (length fs < fuel)%nat ->
    parse_loop fuel buf (Py.len buf) (Py.len pre) out =
    Some (Ok (Py.len pre + Py.len (stream fs)), out ++ map received fs).
Proof.
  intros Vfs Vnext St. induction Vfs as [| f fs V _ IH];
    intros pre buf fuel out Hbuf Hfuel;
    (destruct fuel as [| fuel]; [cbn [length] in Hfuel; lia |]).
  - cbn [stream flat_map app map] in *. rewrite app_nil_r.
    change (Py.len []) with 0. rewrite Z.add_0_r.
    destruct tail as [| t tail].
    + rewrite app_nil_r in Hbuf. subst buf. apply parse_loop_end.
    + destruct Vnext as [| g next Vg _]; [discriminate St |].
      destruct St as (more & E & Hm).
      apply (partial_line_breaks g buf pre (t :: tail) more);
        [assumption | assumption | discriminate | assumption | assumption].
  - cbn [stream flat_map] in Hbuf. fold (stream fs) in Hbuf.
    rewrite <- app_assoc in Hbuf.
    destruct (frame_line_layout f V) as (Lay & _ & _ & _ & _ & M).
    pose proof (frame_line_length f V) as LL.
    pose proof V as (_ & _ & _). pose proof (len_nonneg (frame_data f)) as H0.
    assert (G : Py.getitem buf (Py.len pre) = Ok (marker f)).
    { eapply getitem_at; [| reflexivity]. rewrite Hbuf, Lay.
      rewrite <- app_comm_cons. reflexivity. }
    rewrite (parse_loop_at_marker fuel buf (Py.len buf) (Py.len pre) (marker f) out G M).
    2:{ rewrite Hbuf, !len_app, LL.
        pose proof (len_nonneg (stream fs)). pose proof (len_nonneg tail).
        destruct (frame_extended f); lia. }
    rewrite (parse_message_line f buf pre (stream fs ++ tail) V Hbuf).
    rewrite <- len_app.
    rewrite (IH (pre ++ frame_line f) buf fuel (out ++ [received f])).
    + cbn [stream flat_map map]. fold (stream fs).
      rewrite !len_app, <- app_assoc. cbn [app]. do 3 f_equal. lia.
    + rewrite Hbuf, <- app_assoc. reflexivity.
    + cbn [length] in Hfuel. lia.
Qed.

(** Any beginning of a stream of lines is made of whole lines and the
    beginning of the next. *)
Lemma split_stream (fs : list CANFrame) :
  forall buf more : bytes,
    buf ++ more = stream fs ->
    exists fs1 fs2 tail,
      fs = fs1 ++ fs2 /\ buf = stream fs1 ++ tail /\ stalled tail fs2
      /\ tail ++ more = stream fs2.
Proof.
  induction fs as [| f fs IH]; intros buf more E.
  - cbn in E. apply app_eq_nil in E as [-> ->].
    exists [], [], []. repeat split.
  - cbn [stream flat_map] in E. fold (stream fs) in E.
    destruct (Nat.le_gt_cases (length (frame_line f)) (length buf)) as [Le | Gt].
    + destruct (prefix_split (frame_line f) (stream fs) buf more (eq_sym E) Le)
        as (x & -> & Hx).
      destruct (IH x more (eq_sym Hx)) as (fs1 & fs2 & tail & -> & -> & St & Et).
      exists (f :: fs1), fs2, tail. repeat split; try assumption.
      cbn [stream flat_map]. fold (stream fs1). rewrite app_assoc. reflexivity.
    + destruct (prefix_split buf more (frame_line f) (stream fs) E) as (x & Hl & ->);
        [lia |].
      exists [], (f :: fs), buf. repeat split.
      * exists x. split; [exact Hl |].
        intros ->. rewrite app_nil_r in Hl. rewrite Hl in Gt. lia.
      * cbn [stream flat_map]. fold (stream fs). rewrite Hl, <- app_assoc.
        reflexivity.
Qed.

Lemma rx_thread_stream (chunks : list bytes) :
  forall (fs : list CANFrame) (buf : bytes) (fuel : nat),
    Forall valid_frame fs -> stalled buf fs ->
    buf ++ concat chunks = stream fs ->
    (length (stream fs) < fuel)%nat ->
    _rx_thread fuel chunks buf = Some ([], map IpcFrame (map received fs)).
Proof.
  induction chunks as [| chunk chunks IH]; intros fs buf fuel V St E Hfuel.
  - cbn [concat] in E. rewrite app_nil_r in E. cbn [_rx_thread].
    destruct fs as [| f fs].
    + cbn in St. subst buf. reflexivity.
    + exfalso. destruct St as (more & El & Hm).
      cbn [stream flat_map] in E. rewrite E in El.
      apply (f_equal (@length Z)) in El. rewrite !length_app in El.
      destruct more; [congruence | cbn [length] in El; lia].
  - cbn [concat] in E. rewrite app_assoc in E.
    destruct (split_stream fs (buf ++ chunk) (concat chunks) E)
      as (fs1 & fs2 & tail & -> & Eb & St2 & Et).
    apply Forall_app in V as [V1 V2].
    rewrite stream_app, length_app in Hfuel.
    pose proof (stream_length fs1).
    cbn [_rx_thread]. unfold rx_turn.
    pose proof (parse_lines fs1 fs2 tail V1 V2 St2 [] (buf ++ chunk) fuel [] Eb)
      as P.
    change (Py.len []) with 0 in P. rewrite P by lia.
    rewrite Z.add_0_l. cbn [app].
    rewrite (slice_from_at (buf ++ chunk) (stream fs1) tail _ Eb eq_refl).
    rewrite (IH fs2 tail fuel V2 St2 Et) by lia.
    rewrite !map_app. reflexivity.
Qed.

Lemma stalled_nil (fs : list CANFrame) : stalled [] fs.
Proof.
  destruct fs as [| f fs]; [reflexivity |].
  exists (frame_line f). split; [reflexivity | apply frame_line_nonempty].
Qed.

(** ** Round trip and split buffers *)

(** C1: for a valid frame (identifier within the width of its kind, at most
    eight payload bytes) the line written by [_send_frame], given to the
    receive thread in one read, is parsed into exactly one frame with the
    same identifier, flag and payload and no hardware time stamp, and the
    buffer is used up; the line is the marker, the identifier digits, the
    length digit, the payload digits and the carriage return, with nothing
    between the payload and the carriage return. *)
Theorem encode_decode_roundtrip (f : CANFrame) (fuel : nat) (c : conn) :
  valid_frame f -> (2 <= fuel)%nat ->
  _rx_thread fuel [frame_line f] [] = Some ([], [IpcFrame (received f)])
  /\ parse_loop fuel (frame_line f) (Py.len (frame_line f)) 0 [] =
       Some (Ok (Py.len (frame_line f)), [received f])
  /\ frame_line f =
       marker f :: id_field f ++ (48 + Py.len (frame_data f))
         :: Py.b2a_hex (frame_data f) ++ [CR]
  /\ _send_frame f c =
       (Ok tt, mkConn (conn_timeout c) (conn_rx c)
                      (conn_log c ++ [Write (frame_line f); Flush])).
Proof.
  intros V Hfuel.
  assert (P : parse_loop fuel (frame_line f) (Py.len (frame_line f)) 0 [] =
              Some (Ok (Py.len (frame_line f)), [received f])).
  { pose proof (parse_lines [f] [] [] (Forall_cons f V (Forall_nil _))
                  (Forall_nil _) eq_refl [] (frame_line f) fuel []) as P.
    cbn [stream flat_map app map length] in P.
    rewrite !app_nil_r in P. change (Py.len []) with 0 in P.
    rewrite Z.add_0_l in P. apply P; [reflexivity | lia]. }
  repeat split.
  - cbn [_rx_thread]. unfold rx_turn. cbn [app]. rewrite P.
    rewrite (slice_from_at (frame_line f) (frame_line f) [] _
               (eq_sym (app_nil_r _)) eq_refl).
    reflexivity.
  - exact P.
  - apply (frame_line_layout f V).
  - unfold _send_frame, bind, call. cbn [conn_timeout conn_rx conn_log].
    rewrite <- app_assoc. reflexivity.
Qed.

Lemma encode_decode_roundtrip_witness :
  _rx_thread 2 [Py.b "T1ABCDEF33c0ffee" ++ [CR]] []
  = Some ([], [IpcFrame (mkCANFrame 0x1ABCDEF3 [0xc0; 0xff; 0xee] true None)]).
Proof.
  refine (proj1 (encode_decode_roundtrip
                   (mkCANFrame 0x1ABCDEF3 [0xc0; 0xff; 0xee] true None)
                   2 (mkConn None [] []) _ _)).
  - repeat split; cbn; try lia. repeat constructor; lia.
  - lia.
Defined.



(** ** The example of the end-to-end test *)

(** C4, as the specification states it, fails: no amount of fuel makes the
    receive thread produce the payload 8D EA DB EE F1 23 45 67 from
    [t1238DEADBEEF12345678\r]; the [8] is the length digit. *)
Lemma example_payload_is_not_shifted :
  ~ (exists fuel,
       _rx_thread fuel [example_line] [] =
       Some ([], [IpcFrame (mkCANFrame 0x123
                    [0x8D; 0xEA; 0xDB; 0xEE; 0xF1; 0x23; 0x45; 0x67] false None)])).
Proof.
  intros [fuel H]. destruct fuel as [| [| fuel]]; vm_compute in H; discriminate H.
Qed.

(** C4, amended: [t1238DEADBEEF12345678\r], read at once or cut in two at
    any place, gives exactly one frame: standard, identifier 0x123, the
    eight payload bytes DE AD BE EF 12 34 56 78, no hardware time stamp. *)
Theorem example_line_decodes (k fuel : nat) :
  (k <= 22)%nat -> (2 <= fuel)%nat ->
  _rx_thread fuel [example_line] [] = Some ([], [IpcFrame example_frame])
  /\ _rx_thread fuel [firstn k example_line; skipn k example_line] []
     = Some ([], [IpcFrame example_frame]).
Proof.
  intros Hk Hfuel. destruct fuel as [| [| fuel]]; try lia.
  split; [vm_compute; reflexivity |].
  do 23 (destruct k as [| k]; [vm_compute; reflexivity |]). lia.
Qed.

Lemma example_line_decodes_witness :
  _rx_thread 2 [Py.b "t1238DEADB"; Py.b "EEF12345678" ++ [CR]] []
  = Some ([], [IpcFrame example_frame]).
Proof.
  refine (proj2 (example_line_decodes 10 2 _ _)); lia.
Defined.

(** ** Bytes that start no fragment *)

Lemma no_marker_contains (x : Z) :
  no_marker x -> Py.contains (Py.b "Tt") x = false.
Proof.
  intros [H1 H2]. change (Py.b "Tt") with [84; 116]. cbn [Py.contains existsb].
  destruct (Z.eqb_spec x 84); [contradiction |].
  destruct (Z.eqb_spec x 116); [contradiction | reflexivity].
Qed.

Lemma find_marker_step (buf : bytes) (buf_len pos x : Z) :
  pos < buf_len -> Py.getitem buf pos = Ok x ->
  Py.contains (Py.b "Tt") x = false ->
  find_marker buf buf_len pos = find_marker buf buf_len (pos + 1).
Proof.
  intros L G C. unfold find_marker.
  replace (Z.to_nat (buf_len - pos)) with (S (Z.to_nat (buf_len - (pos + 1))))
    by lia.
  cbn [skip_loop]. rewrite (proj2 (Z.ltb_lt _ _) L), G. cbn [res_bind].
  rewrite C. reflexivity.
Qed.

Lemma find_marker_junk (junk : bytes) :
  Forall no_marker junk ->
  forall pre post buf : bytes,
    buf = pre ++ junk ++ post ->
    find_marker buf (Py.len buf) (Py.len pre) =
    find_marker buf (Py.len buf) (Py.len pre + Py.len junk).
Proof.
  induction 1 as [| x junk Hx _ IH]; intros pre post buf Hbuf.
  - change (Py.len []) with 0. rewrite Z.add_0_r. reflexivity.
  - rewrite (find_marker_step buf (Py.len buf) (Py.len pre) x).
    + assert (L1 : Py.len (pre ++ [x]) = Py.len pre + 1)
        by (rewrite len_app; reflexivity).
      rewrite <- L1, (IH (pre ++ [x]) post buf) by layout.
      f_equal. rewrite L1. unfold Py.len. cbn [length]. lia.
    + rewrite Hbuf, !len_app. pose proof (len_nonneg post).
      pose proof (len_nonneg junk). unfold Py.len. cbn [length]. lia.
    + apply (getitem_at buf pre x (junk ++ post)); [exact Hbuf | reflexivity].
    + apply no_marker_contains, Hx.
Qed.

Lemma parse_loop_junk (junk pre post buf : bytes) (fuel : nat)
    (out : list CANFrame) :
  Forall no_marker junk -> buf = pre ++ junk ++ post ->
  parse_loop fuel buf (Py.len buf) (Py.len pre) out =
  parse_loop fuel buf (Py.len buf) (Py.len pre + Py.len junk) out.
Proof.
  intros J Hbuf. destruct fuel as [| fuel]; [reflexivity |].
  cbn [parse_loop]. rewrite (find_marker_junk junk J pre post buf Hbuf).
  remember (Py.len pre + Py.len junk) as pos eqn:Hpos.
  destruct (find_marker buf (Py.len buf) pos) as [p |] eqn:F; reflexivity.
Qed.

(** ** The byte after the payload *)

Lemma contains_upper_hex (t : Z) :
  Py.contains (Py.b "0123456789ABCDEF") t = true <-> upper_hex t.
Proof.
  assert (E : Py.b "0123456789ABCDEF" =
              [48; 49; 50; 51; 52; 53; 54; 55; 56; 57; 65; 66; 67; 68; 69; 70])
    by reflexivity.
  unfold Py.contains, upper_hex. rewrite E. split.
  - intros H. apply existsb_exists in H as (c & I & Ec).
    apply Z.eqb_eq in Ec. subst c. cbn [In] in I. lia.
  - intros H. apply existsb_exists. exists t.
    split; [cbn [In]; lia | apply Z.eqb_refl].
Qed.

Lemma contains_not_upper_hex (t : Z) :
  ~ upper_hex t -> Py.contains (Py.b "0123456789ABCDEF") t = false.
Proof.
  intros N. destruct (Py.contains _ t) eqn:E; [| reflexivity].
  apply contains_upper_hex in E. contradiction.
Qed.

(** C5, as the specification states it, fails: [a] is a hexadecimal digit
    for the parser of the time stamp, but in [t1230abcd\r] the byte [a]
    after the (empty) payload is not taken as the start of a time stamp:
    the frame is accepted without one and the scan goes on at [b]. *)
Lemma lowercase_timestamp_not_detected :
  hex_digit 97 = true
  /\ Py.int16_bytes (Py.b "abcd") = Ok 0xabcd
  /\ parse_message (Py.b "t1230abcd" ++ [CR]) 10 0
     = Parsed (mkCANFrame 0x123 [] false None) 6.
Proof. repeat split. Qed.

(** C5, amended: in a well-formed fragment the byte [t] after the payload
    announces a hardware time stamp exactly when it is one of the sixteen
    characters [0-9A-F] (a lower-case [a-f] does not): then the parser
    waits until three more bytes are there and, when the four bytes read
    as a number, the frame carries it; in no case does it give a frame
    without a time stamp.  Any other [t] ends the fragment: the frame has
    no time stamp, it is queued, and the scan goes on after [t], passing
    over the bytes that follow as long as they are no start markers (the
    other digits of a lower-case time stamp and the carriage return, for
    one). *)
Theorem timestamp_detection
    (buf pre : bytes) (m : Z) (idf : bytes) (n : Z) (payload : bytes)
    (t : Z) (rest : bytes) (pid : Z) (data : bytes) :
  buf = pre ++ m :: idf ++ (48 + n) :: payload ++ t :: rest ->
  Py.len idf = (if m =? 84 then 8 else 3) ->
  res_bind (Py.decode idf) Py.int16_str = Ok pid ->
  0 <= n <= 8 ->
  Py.len payload = 2 * n ->
  Py.a2b_hex payload = Ok data ->
  let pos := Py.len pre in
  let total := 2 + (if m =? 84 then 8 else 3) + 2 * n + 1 in
  let result := parse_message buf (Py.len buf) pos in
  (upper_hex t ->
     (Py.len rest < 3 -> result = Break)
     /\ (forall ts, 3 <= Py.len rest ->
           Py.int16_bytes (t :: firstn 3 rest) = Ok ts ->
           result = Parsed (mkCANFrame pid data (m =? 84) (Some ts)) (pos + total + 3))
     /\ (forall frame p, result = Parsed frame p -> frame_ts_hardware frame <> None))
  /\ (~ upper_hex t ->
        result = Parsed (mkCANFrame pid data (m =? 84) None) (pos + total)
        /\ (m = 84 \/ m = 116 ->
            forall (junk rest' : bytes) (fuel : nat) (out : list CANFrame),
              rest = junk ++ rest' -> Forall no_marker junk ->
              parse_loop (S fuel) buf (Py.len buf) pos out
              = parse_loop fuel buf (Py.len buf) (pos + total + Py.len junk)
                           (out ++ [mkCANFrame pid data (m =? 84) None]))).
Proof.
  intros Hbuf Hid Hpid Hn Hpay Hdata pos total result.
  pose proof (parse_message_fragment buf pre m idf n payload t rest pid data
                Hbuf Hid Hpid Hn Hpay Hdata) as F.
  cbv zeta in F. fold pos total result in F. split.
  - intros U. apply contains_upper_hex in U. rewrite U in F. repeat split.
    + intros Short. rewrite F, (proj2 (Z.ltb_lt _ _) Short). reflexivity.
    + intros ts Long Hts. rewrite F, (proj2 (Z.ltb_ge _ _) Long), Hts. reflexivity.
    + intros frame p. rewrite F.
      destruct (Py.len rest <? 3); [discriminate |].
      destruct (Py.int16_bytes (t :: firstn 3 rest)); [| discriminate].
      intros [= <- _]. discriminate.
  - intros N. rewrite (contains_not_upper_hex t N) in F. split; [exact F |].
    intros Hm junk rest' fuel out Hrest J.
    assert (G : Py.getitem buf pos = Ok m)
      by (apply (getitem_at buf pre m (idf ++ (48 + n) :: payload ++ t :: rest));
          [exact Hbuf | reflexivity]).
    assert (C : Py.contains (Py.b "Tt") m = true)
      by (destruct Hm as [-> | ->]; reflexivity).
    assert (Lt : pos < Py.len buf).
    { rewrite Hbuf, len_app. unfold pos, Py.len. cbn [length]. lia. }
    rewrite (parse_loop_at_marker fuel buf (Py.len buf) pos m out G C Lt).
    unfold result in F. rewrite F.
    set (fragment := pre ++ m :: idf ++ (48 + n) :: payload ++ [t]).
    assert (Hfrag : Py.len fragment = pos + total).
    { unfold fragment, pos, total. rewrite len_app.
      destruct (m =? 84); unfold Py.len in *; cbn [length];
        rewrite length_app; cbn [length]; rewrite length_app; cbn [length]; lia. }
    rewrite <- Hfrag.
    apply (parse_loop_junk junk fragment rest' buf fuel _ J).
    rewrite Hbuf, Hrest. unfold fragment.
    repeat (rewrite <- app_assoc || rewrite <- app_comm_cons). reflexivity.
Qed.

Lemma timestamp_detection_witness :
  parse_message (Py.b "t1230ABCD" ++ [CR]) 10 0
  = Parsed (mkCANFrame 0x123 [] false (Some 0xABCD)) 9.
Proof.
  refine (proj1 (proj2 (proj1
    (timestamp_detection (Py.b "t1230ABCD" ++ [CR]) [] 116 (Py.b "123") 0 []
       65 (Py.b "BCD" ++ [CR]) 0x123 [] eq_refl eq_refl eq_refl _ eq_refl eq_refl) _))
    0xABCD _ eq_refl).
  - lia.
  - unfold upper_hex. lia.
  - vm_compute. discriminate.
Defined.

(** C9: the byte after the payload is only tested for membership in
    [0-9A-F].  In a fragment whose identifier, length digit and payload
    parse, any other byte there (a carriage return, but just as well [x]
    or a line feed) ends the fragment: the frame is accepted without a
    time stamp, it is queued, and the scan goes on after that byte. *)
Theorem terminator_not_validated
    (buf pre : bytes) (m : Z) (idf : bytes) (n : Z) (payload : bytes)
    (t : Z) (rest : bytes) (pid : Z) (data : bytes)
    (fuel : nat) (out : list CANFrame) :
  buf = pre ++ m :: idf ++ (48 + n) :: payload ++ t :: rest ->
  m = 84 \/ m = 116 ->
  Py.len idf = (if m =? 84 then 8 else 3) ->
  res_bind (Py.decode idf) Py.int16_str = Ok pid ->
  0 <= n <= 8 ->
  Py.len payload = 2 * n ->
  Py.a2b_hex payload = Ok data ->
  ~ upper_hex t ->
  let pos := Py.len pre in
  let total := 2 + (if m =? 84 then 8 else 3) + 2 * n + 1 in
  let frame := mkCANFrame pid data (m =? 84) None in
  parse_message buf (Py.len buf) pos = Parsed frame (pos + total)
  /\ parse_loop (S fuel) buf (Py.len buf) pos out =
     parse_loop fuel buf (Py.len buf) (pos + total) (out ++ [frame]).
Proof.
  intros Hbuf Hm Hid Hpid Hn Hpay Hdata N pos total frame.
  pose proof (parse_message_fragment buf pre m idf n payload t rest pid data
                Hbuf Hid Hpid Hn Hpay Hdata) as F.
  cbv zeta in F. fold pos total in F.
  rewrite (contains_not_upper_hex t N) in F. fold frame in F.
  split; [exact F |].
  assert (G : Py.getitem buf pos = Ok m)
    by (apply (getitem_at buf pre m (idf ++ (48 + n) :: payload ++ t :: rest));
        [exact Hbuf | reflexivity]).
  assert (C : Py.contains (Py.b "Tt") m = true)
    by (destruct Hm as [-> | ->]; reflexivity).
  rewrite (parse_loop_at_marker fuel buf (Py.len buf) pos m out G C), F;
    [reflexivity |].
  subst buf pos. rewrite len_app. pose proof (len_nonneg pre).
  unfold Py.len. cbn [length]. lia.
Qed.

Lemma terminator_not_validated_witness :
  parse_loop 2 (Py.b "t1231ffx") 8 0 []
  = Some (Ok 8, [mkCANFrame 0x123 [255] false None]).
Proof.
  refine (eq_trans (proj2
    (terminator_not_validated (Py.b "t1231ffx") [] 116 (Py.b "123") 1 (Py.b "ff")
       120 [] 0x123 [255] 1 [] eq_refl _ eq_refl eq_refl _ eq_refl eq_refl _)) _).
  - right. reflexivity.
  - lia.
  - unfold upper_hex. lia.
  - reflexivity.
Defined.

(** ** Where the scan resumes after an exception *)

(** An exception leaves [pos] on the marker, except the one raised by the
    conversion of the time stamp, which comes after [pos] was moved. *)
Lemma except_position (buf : bytes) (buf_len pos : Z) (e : exn) (p : Z) :
  parse_message buf buf_len pos = Except e p ->
  p = pos \/ Py.int16_bytes (Py.slice buf (p - 4) p) = Raise e.
Proof.
  unfold parse_message.
  repeat match goal with
         | |- context [match ?x with _ => _ end] => destruct x eqn:?
         end;
    intros H; try discriminate H; injection H as <- <-; auto.
Qed.

(** C6 does not hold of the code when the exception comes from the time
    stamp: in [t1230AXYZt4560\r] the fragment at 0 announces a time stamp
    ([A]) that is not a number; the exception is raised with [pos] already
    at 9, past the fragment, so the scan resumes at 10 instead of 1 and
    steps over the marker of the next, valid, frame at 9, which is lost;
    resumed at 1 the scan finds it. *)
Theorem timestamp_error_resumes_past_fragment :
  parse_message (Py.b "t1230AXYZt4560" ++ [CR]) 15 0 = Except ValueError 9
  /\ parse_loop 3 (Py.b "t1230AXYZt4560" ++ [CR]) 15 0 [] = Some (Ok 15, [])
  /\ parse_loop 3 (Py.b "t1230AXYZt4560" ++ [CR]) 15 1 []
     = Some (Ok 15, [mkCANFrame 0x456 [] false None]).
Proof. repeat split. Qed.

(** * Further properties of the driver *)

(** ** Malformed fragments *)

(** X1: a marker followed by an identifier field that does not read as a
    number (bad UTF-8, or no hexadecimal literal) is one byte of garbage:
    the exception is raised with [pos] on the marker and the scan goes on
    at the next byte; no frame is queued. *)
Theorem invalid_identifier_skips_marker
    (buf pre : bytes) (m : Z) (idf : bytes) (c : Z) (rest : bytes) (e : exn)
    (fuel : nat) (out : list CANFrame) :
  buf = pre ++ m :: idf ++ c :: rest ->
  m = 84 \/ m = 116 ->
  Py.len idf = (if m =? 84 then 8 else 3) ->
  res_bind (Py.decode idf) Py.int16_str = Raise e ->
  parse_message buf (Py.len buf) (Py.len pre) = Except e (Py.len pre)
  /\ parse_loop (S fuel) buf (Py.len buf) (Py.len pre) out =
     parse_loop fuel buf (Py.len buf) (Py.len pre + 1) out.
Proof.
  intros Hbuf Hm Hid Hpid.
  assert (G : Py.getitem buf (Py.len pre) = Ok m)
    by (apply (getitem_at buf pre m (idf ++ c :: rest)); [exact Hbuf | reflexivity]).
  assert (C : Py.contains (Py.b "Tt") m = true)
    by (destruct Hm as [-> | ->]; reflexivity).
  pose proof (len_nonneg rest) as Hrest.
  assert (E : parse_message buf (Py.len buf) (Py.len pre) = Except e (Py.len pre)).
  { unfold parse_message. rewrite G. clear G C Hm.
    destruct (m =? 84) eqn:Em; cbv zeta;
      (assert (HL : Py.len buf = Py.len pre + Py.len idf + 2 + Py.len rest)
         by (subst buf; rewrite !len_app; unfold Py.len in *; cbn [length];
             rewrite !length_app; cbn [length]; lia));
      decide_cmp;
      at_slice (pre ++ [m]) idf (c :: rest);
      (destruct (Py.decode idf) as [s | e']; cbn [res_bind] in Hpid;
       [rewrite Hpid | injection Hpid as ->]); reflexivity. }
  split; [exact E |].
  rewrite (parse_loop_at_marker fuel buf (Py.len buf) (Py.len pre) m out G C), E;
    [reflexivity |].
  rewrite Hbuf, len_app. unfold Py.len. cbn [length]. lia.
Qed.

Lemma invalid_identifier_skips_marker_witness :
  parse_loop 3 (Py.b "tXYZ0" ++ [CR] ++ Py.b "t0010" ++ [CR]) 12 0 []
  = Some (Ok 12, [mkCANFrame 1 [] false None]).
Proof.
  refine (eq_trans (proj2
    (invalid_identifier_skips_marker
       (Py.b "tXYZ0" ++ [CR] ++ Py.b "t0010" ++ [CR]) [] 116 (Py.b "XYZ") 48
       ([CR] ++ Py.b "t0010" ++ [CR]) ValueError 2 [] eq_refl _ eq_refl eq_refl)) _).
  - right. reflexivity.
  - reflexivity.
Defined.

(** X2: a length digit above 8 (the character [9] or any later one) in a
    fragment whose identifier reads as a number raises the error of the
    invalid packet length with [pos] on the marker: no frame is queued for
    this marker and the scan goes on at the next byte. *)
Theorem length_above_8_rejected
    (buf pre : bytes) (m : Z) (idf : bytes) (c : Z) (rest : bytes) (pid : Z)
    (fuel : nat) (out : list CANFrame) :
  buf = pre ++ m :: idf ++ c :: rest ->
  m = 84 \/ m = 116 ->
  Py.len idf = (if m =? 84 then 8 else 3) ->
  res_bind (Py.decode idf) Py.int16_str = Ok pid ->
  56 < c ->
  parse_message buf (Py.len buf) (Py.len pre)
    = Except (DriverError "Invalid packet length") (Py.len pre)
  /\ parse_loop (S fuel) buf (Py.len buf) (Py.len pre) out =
     parse_loop fuel buf (Py.len buf) (Py.len pre + 1) out.
Proof.
  intros Hbuf Hm Hid Hpid Hc.
  assert (G : Py.getitem buf (Py.len pre) = Ok m)
    by (apply (getitem_at buf pre m (idf ++ c :: rest)); [exact Hbuf | reflexivity]).
  assert (C : Py.contains (Py.b "Tt") m = true)
    by (destruct Hm as [-> | ->]; reflexivity).
  pose proof (len_nonneg rest) as Hrest.
  destruct (Py.decode idf) as [s |] eqn:Hdec; [| discriminate Hpid].
  cbn [res_bind] in Hpid.
  assert (E : parse_message buf (Py.len buf) (Py.len pre)
              = Except (DriverError "Invalid packet length") (Py.len pre)).
  { unfold parse_message. rewrite G. clear G C Hm.
    destruct (m =? 84) eqn:Em; cbv zeta;
      (assert (HL : Py.len buf = Py.len pre + Py.len idf + 2 + Py.len rest)
         by (subst buf; rewrite !len_app; unfold Py.len in *; cbn [length];
             rewrite !length_app; cbn [length]; lia));
      decide_cmp;
      at_slice (pre ++ [m]) idf (c :: rest);
      rewrite Hdec, Hpid;
      at_index (pre ++ m :: idf) c rest;
      rewrite Z.gtb_ltb; decide_cmp; reflexivity. }
  split; [exact E |].
  rewrite (parse_loop_at_marker fuel buf (Py.len buf) (Py.len pre) m out G C), E;
    [reflexivity |].
  rewrite Hbuf, len_app. unfold Py.len. cbn [length]. lia.
Qed.

Lemma length_above_8_rejected_witness :
  parse_loop 2 (Py.b "t1239001122334455667788" ++ [CR]) 24 0 [] = Some (Ok 24, []).
Proof.
  refine (eq_trans (proj2
    (length_above_8_rejected (Py.b "t1239001122334455667788" ++ [CR]) [] 116
       (Py.b "123") 57 (Py.b "001122334455667788" ++ [CR]) 0x123 1 []
       eq_refl _ eq_refl eq_refl _)) _).
  - right. reflexivity.
  - lia.
  - reflexivity.
Defined.

(** X3: whatever the buffer, an exception in the [try] block leaves [pos]
    on the marker, so that the scan goes on one byte after it, unless it is
    the exception of the conversion of the four time stamp digits that end
    at [pos]. *)
Theorem exception_position (buf : bytes) (buf_len pos : Z) (e : exn) (p : Z) :
  parse_message buf buf_len pos = Except e p ->
  p = pos \/ (Py.int16_bytes (Py.slice buf (p - 4) p) = Raise e).
Proof. apply except_position. Qed.

Lemma exception_position_witness :
  9 = 0 \/ Py.int16_bytes (Py.slice (Py.b "t1230AXYZ") (9 - 4) 9) = Raise ValueError.
Proof.
  exact (exception_position (Py.b "t1230AXYZ") 9 0 ValueError 9 eq_refl).
Defined.

(** ** What is kept of the buffer *)

(** X4: when nothing read so far holds a start marker, one turn of the
    receive loop queues nothing and drops the whole buffer. *)
Theorem buffer_without_marker_dropped (buf chunk : bytes) (fuel : nat) :
  Forall no_marker (buf ++ chunk) -> (1 <= fuel)%nat ->
  rx_turn fuel buf chunk = Some ([], []).
Proof.
  intros J Hfuel. destruct fuel as [| fuel]; [lia |].
  unfold rx_turn. set (s := buf ++ chunk) in *.
  pose proof (parse_loop_junk s [] [] s (S fuel) [] J
                (eq_sym (app_nil_r s))) as P.
  change (Py.len []) with 0 in P. rewrite Z.add_0_l in P.
  rewrite P, parse_loop_end.
  rewrite (slice_from_at s s [] _ (eq_sym (app_nil_r s)) eq_refl).
  reflexivity.
Qed.

Lemma buffer_without_marker_dropped_witness :
  rx_turn 1 (Py.b "1230") ([CR] ++ Py.b "xyz") = Some ([], []).
Proof.
  apply buffer_without_marker_dropped; [| lia].
  repeat constructor; discriminate.
Defined.

(** X5: noise before a marker is dropped, and a fragment too short to hold
    its identifier and length digit is kept from its marker on for the next
    read; nothing is queued. *)
Theorem short_fragment_kept
    (buf chunk junk : bytes) (m : Z) (short : bytes) (fuel : nat) :
  buf ++ chunk = junk ++ m :: short ->
  Forall no_marker junk ->
  m = 84 \/ m = 116 ->
  Py.len short < (if m =? 84 then 8 else 3) + 1 ->
  (1 <= fuel)%nat ->
  rx_turn fuel buf chunk = Some (m :: short, []).
Proof.
  intros Hs J Hm Hshort Hfuel. destruct fuel as [| fuel]; [lia |].
  unfold rx_turn. rewrite Hs. set (s := junk ++ m :: short) in *.
  pose proof (parse_loop_junk junk [] (m :: short) s (S fuel) [] J eq_refl) as P.
  change (Py.len []) with 0 in P. rewrite Z.add_0_l in P. rewrite P.
  assert (G : Py.getitem s (Py.len junk) = Ok m)
    by (apply (getitem_at s junk m short); reflexivity).
  assert (C : Py.contains (Py.b "Tt") m = true)
    by (destruct Hm as [-> | ->]; reflexivity).
  assert (HL : Py.len s = Py.len junk + 1 + Py.len short)
    by (unfold s; rewrite len_app; unfold Py.len; cbn [length]; lia).
  pose proof (len_nonneg short) as H0.
  rewrite (parse_loop_at_marker fuel s (Py.len s) (Py.len junk) m [] G C) by lia.
  replace (parse_message s (Py.len s) (Py.len junk)) with Break.
  - rewrite (slice_from_at s junk (m :: short) _ eq_refl eq_refl). reflexivity.
  - unfold parse_message. rewrite G. cbv zeta.
    destruct (m =? 84); decide_cmp; reflexivity.
Qed.

Lemma short_fragment_kept_witness :
  rx_turn 1 (Py.b "ab" ++ [CR]) (Py.b "T1234") = Some (Py.b "T1234", []).
Proof.
  apply (short_fragment_kept _ _ (Py.b "ab" ++ [CR]) 84 (Py.b "1234")).
  - reflexivity.
  - repeat constructor; discriminate.
  - left. reflexivity.
  - vm_compute. reflexivity.
  - lia.
Defined.

(** ** Noise between lines, and lines with a time stamp *)

Lemma parse_noisy (l : list (bytes * CANFrame)) (trail : bytes) :
  Forall (fun p => Forall no_marker (fst p) /\ valid_frame (snd p)) l ->
  Forall no_marker trail ->
  forall (pre buf : bytes) (fuel : nat) (out : list CANFrame),
    buf = pre ++ noisy_stream l ++ trail -> (length l < fuel)%nat ->
    parse_loop fuel buf (Py.len buf) (Py.len pre) out =
    Some (Ok (Py.len buf), out ++ map (fun p => received (snd p)) l).
Proof.
  intros Hl Ht. induction Hl as [| [j f] l [Hj V] _ IH];
    intros pre buf fuel out Hbuf Hfuel;
    (destruct fuel as [| fuel]; [cbn [length] in Hfuel; lia |]).
  - cbn [noisy_stream flat_map app map] in *. rewrite app_nil_r.
    rewrite (parse_loop_junk trail pre [] buf (S fuel) out Ht)
      by (rewrite app_nil_r; exact Hbuf).
    replace (Py.len pre + Py.len trail) with (Py.len buf)
      by (rewrite Hbuf, len_app; reflexivity).
    apply parse_loop_end.
  - cbn [noisy_stream flat_map fst snd] in Hbuf. fold (noisy_stream l) in Hbuf.
    cbn [fst snd] in Hj, V.
    assert (Hbuf1 : buf = pre ++ j ++ (frame_line f ++ noisy_stream l ++ trail))
      by (rewrite Hbuf; repeat rewrite <- app_assoc; reflexivity).
    assert (Hbuf2 : buf = (pre ++ j) ++ frame_line f ++ (noisy_stream l ++ trail))
      by (rewrite Hbuf; repeat rewrite <- app_assoc; reflexivity).
    rewrite (parse_loop_junk j pre _ buf (S fuel) out Hj Hbuf1).
    rewrite <- len_app.
    destruct (frame_line_layout f V) as (Lay & _ & _ & _ & _ & M).
    pose proof (frame_line_length f V) as LL.
    pose proof (len_nonneg (frame_data f)) as H0.
    assert (G : Py.getitem buf (Py.len (pre ++ j)) = Ok (marker f)).
    { eapply getitem_at; [| reflexivity]. rewrite Hbuf2, Lay.
      rewrite <- app_comm_cons. reflexivity. }
    rewrite (parse_loop_at_marker fuel buf (Py.len buf) (Py.len (pre ++ j))
               (marker f) out G M).
    2:{ rewrite Hbuf2 at 1. rewrite (len_app (pre ++ j)), (len_app (frame_line f)), LL.
        pose proof (len_nonneg (noisy_stream l ++ trail)).
        destruct (frame_extended f); lia. }
    rewrite (parse_message_line f buf (pre ++ j) (noisy_stream l ++ trail) V Hbuf2).
    rewrite <- len_app.
    rewrite (IH ((pre ++ j) ++ frame_line f) buf fuel (out ++ [received f])).
    + cbn [map snd]. rewrite <- app_assoc. reflexivity.
    + rewrite Hbuf2. repeat rewrite <- app_assoc. reflexivity.
    + cbn [length] in Hfuel. lia.
Qed.

(** X6: bytes other than [T] and [t] before, between and after the lines of
    valid frames change nothing: one turn of the receive loop queues the
    frames of the lines, in order, and keeps nothing. *)
Theorem noise_between_lines_ignored
    (l : list (bytes * CANFrame)) (trail buf chunk : bytes) (fuel : nat) :
  Forall (fun p => Forall no_marker (fst p) /\ valid_frame (snd p)) l ->
  Forall no_marker trail ->
  buf ++ chunk = noisy_stream l ++ trail ->
  (length l < fuel)%nat ->
  rx_turn fuel buf chunk
  = Some ([], map IpcFrame (map (fun p => received (snd p)) l)).
Proof.
  intros Hl Ht Hs Hfuel. unfold rx_turn.
  pose proof (parse_noisy l trail Hl Ht [] (buf ++ chunk) fuel [] Hs Hfuel) as P.
  change (Py.len []) with 0 in P. rewrite P. cbn [app].
  rewrite (slice_from_at (buf ++ chunk) (buf ++ chunk) [] _
             (eq_sym (app_nil_r _)) eq_refl).
  reflexivity.
Qed.

Lemma noise_between_lines_ignored_witness :
  rx_turn 3 (Py.b "ok" ++ [CR; 7] ++ Py.b "t0011ff" ++ [CR])
            ([10] ++ Py.b "T1FFFFFFF0" ++ [CR; 10])
  = Some ([], [IpcFrame (mkCANFrame 1 [255] false None);
               IpcFrame (mkCANFrame 0x1FFFFFFF [] true None)]).
Proof.
  refine (noise_between_lines_ignored
            [(Py.b "ok" ++ [CR; 7], mkCANFrame 1 [255] false None);
             ([10], mkCANFrame 0x1FFFFFFF [] true None)]
            [10] _ _ 3 _ _ eq_refl _).
  - repeat constructor; cbn; try lia; discriminate.
  - repeat constructor; discriminate.
  - cbn. lia.
Defined.

Lemma int16_bytes_hex_fixed (w : nat) (n : Z) :
  0 <= n < 16 ^ Z.of_nat (S w) -> Py.int16_bytes (Py.hex_fixed (S w) n) = Ok n.
Proof.
  intros R. pose proof (int16_hex_fixed w n R) as H. unfold Py.decode in H.
  rewrite <- (app_nil_r (Py.hex_fixed (S w) n)) in H at 1.
  rewrite hex_fixed_utf8 in H. cbn [Py.utf8 option_map res_bind] in H.
  rewrite app_nil_r in H. unfold Py.int16_str in H.
  rewrite hex_fixed_to_ascii in H. exact H.
Qed.

Lemma upper_digit_contains (d : Z) :
  0 <= d < 16 -> Py.contains (Py.b "0123456789ABCDEF") (Py.upper_digit d) = true.
Proof. intros H. each_digit d H; reflexivity. Qed.

(** X7: a line in which the adapter put four upper-case digits of hardware
    time stamp between the payload and the carriage return gives the frame
    with that time stamp (in milliseconds, 0 to 65535).  The frame is
    queued as soon as the four digits are there: what follows, the carriage
    return included, is skipped as noise. *)
Theorem timestamped_line_decodes
    (f : CANFrame) (ts : Z) (trail buf chunk : bytes) (fuel : nat) :
  valid_frame f -> 0 <= ts < 65536 ->
  Forall no_marker trail ->
  buf ++ chunk = frame_text f ++ Py.hex_fixed 4 ts ++ trail ->
  (2 <= fuel)%nat ->
  frame_line f = frame_text f ++ [CR]
  /\ rx_turn fuel buf chunk
     = Some ([], [IpcFrame (mkCANFrame (frame_id f) (frame_data f)
                                        (frame_extended f) (Some ts))]).
Proof.
  intros V Hts Ht Hs Hfuel.
  destruct (frame_line_layout f V) as (Lay & L & I & A & X & M).
  pose proof V as (_ & Hlen & _). pose proof (len_nonneg (frame_data f)) as H0.
  split.
  { rewrite Lay. unfold frame_text. rewrite <- app_comm_cons, <- app_assoc.
    reflexivity. }
  destruct fuel as [| [| fuel]]; try lia.
  unfold rx_turn. set (s := buf ++ chunk) in *.
  pose proof (int16_bytes_hex_fixed 3 ts Hts) as Hint.
  pose proof (hex_fixed_digits 4 ts) as D.
  remember (Py.hex_fixed 4 ts) as stamp eqn:Hstamp.
  assert (Hl : length stamp = 4%nat) by (rewrite Hstamp; apply hex_fixed_length).
  destruct stamp as [| t [| r1 [| r2 [| r3 [| ? ?]]]]]; try discriminate Hl.
  inversion D as [| ? ? (d & Hd & Rd) _]; subst t.
  assert (Hs' : s = [] ++ marker f :: id_field f ++ (48 + Py.len (frame_data f))
                      :: Py.b2a_hex (frame_data f)
                      ++ Py.upper_digit d :: ([r1; r2; r3] ++ trail)).
  { rewrite Hs. unfold frame_text. cbn [app].
    repeat (rewrite <- app_assoc || rewrite <- app_comm_cons). reflexivity. }
  pose proof (parse_message_fragment s [] (marker f) (id_field f)
                (Py.len (frame_data f)) (Py.b2a_hex (frame_data f))
                (Py.upper_digit d) ([r1; r2; r3] ++ trail)
                (frame_id f) (frame_data f) Hs' L I (conj H0 Hlen)
                (b2a_hex_length _) A) as F.
  cbv zeta in F. rewrite (upper_digit_contains d Rd) in F.
  assert (Hrest : (Py.len ([r1; r2; r3] ++ trail) <? 3) = false).
  { apply Z.ltb_ge. rewrite len_app. pose proof (len_nonneg trail).
    unfold Py.len. cbn [length]. lia. }
  rewrite Hrest in F. cbn [app firstn] in F. rewrite Hint, X in F.
  assert (G : Py.getitem s 0 = Ok (marker f))
    by (eapply (getitem_at s []); [exact Hs' | reflexivity]).
  assert (Hft : Py.len (frame_text f)
                = 2 + (if frame_extended f then 8 else 3) + 2 * Py.len (frame_data f)).
  { rewrite X in L. pose proof (b2a_hex_length (frame_data f)) as B.
    unfold frame_text, Py.len in *. cbn [length]. rewrite length_app.
    cbn [length]. lia. }
  assert (Hs2 : s = (frame_text f ++ [Py.upper_digit d; r1; r2; r3]) ++ trail ++ [])
    by (rewrite Hs, app_nil_r, <- app_assoc; reflexivity).
  set (stamped := frame_text f ++ [Py.upper_digit d; r1; r2; r3]) in *.
  assert (Hpre : Py.len stamped
                 = 0 + (2 + (if frame_extended f then 8 else 3)
                        + 2 * Py.len (frame_data f) + 1) + 3).
  { unfold stamped. rewrite len_app, Hft. unfold Py.len. cbn [length]. lia. }
  assert (Hlen_s : Py.len s = Py.len stamped + Py.len trail)
    by (rewrite Hs2, len_app, app_nil_r; reflexivity).
  pose proof (len_nonneg trail) as Htrail.
  change (Py.len []) with 0 in F.
  rewrite (parse_loop_at_marker (S fuel) s (Py.len s) 0 (marker f) [] G M), F
    by (rewrite Hlen_s, Hpre; destruct (frame_extended f); lia).
  rewrite <- Hpre.
  rewrite (parse_loop_junk trail stamped [] s (S fuel) _ Ht Hs2).
  rewrite <- Hlen_s, parse_loop_end.
  rewrite (slice_from_at s s [] _ (eq_sym (app_nil_r s)) eq_refl).
  reflexivity.
Qed.

Lemma timestamped_line_decodes_witness :
  rx_turn 2 (Py.b "t1231ab0") (Py.b "3E8" ++ [CR])
  = Some ([], [IpcFrame (mkCANFrame 0x123 [0xab] false (Some 1000))]).
Proof.
  refine (proj2 (timestamped_line_decodes (mkCANFrame 0x123 [0xab] false None)
                   1000 [CR] (Py.b "t1231ab0") (Py.b "3E8" ++ [CR]) 2
                   _ _ _ eq_refl _)).
  - repeat split; cbn; try lia. repeat constructor; lia.
  - lia.
  - repeat constructor; discriminate.
  - lia.
Defined.

(** ** A length byte below the digits *)

Lemma parse_loop_q_at_marker (accepts : nat -> bool) (fuel : nat) (buf : bytes)
    (buf_len pos m : Z) (k : nat) (out : list CANFrame) :
  Py.getitem buf pos = Ok m -> Py.contains (Py.b "Tt") m = true ->
  pos < buf_len ->
  parse_loop_q accepts (S fuel) buf buf_len pos k out =
  match parse_message buf buf_len pos with
  | Break => Some (Ok pos, out, k)
  | Except _ pos' => parse_loop_q accepts fuel buf buf_len (pos' + 1) k out
  | Parsed frame pos' =>
      if accepts k
      then parse_loop_q accepts fuel buf buf_len pos' (S k) (out ++ [frame])
      else Some (Raise QueueFull, out, S k)
  end.
Proof.
  intros G C L. cbn [parse_loop_q]. rewrite (find_marker_here _ _ _ _ G C L).
  rewrite Z.geb_leb, (proj2 (Z.leb_gt buf_len pos) L). reflexivity.
Qed.

Lemma minus_as_length_parsed (idf : bytes) (pid : Z) :
  Py.len idf = 3 ->
  res_bind (Py.decode idf) Py.int16_str = Ok pid ->
  parse_message (116 :: idf ++ [45]) 5 0 = Parsed (mkCANFrame pid [] false None) 0
  /\ Py.getitem (116 :: idf ++ [45]) 0 = Ok 116.
Proof.
  intros Hlen Hpid.
  destruct idf as [| a [| b [| c [| ? ?]]]];
    try (exfalso; unfold Py.len in Hlen; cbn [length] in Hlen; lia).
  cbn [app]. split; [| reflexivity].
  unfold parse_message. cbv -[Py.decode Py.int16_str].
  destruct (Py.decode [a; b; c]) as [s |]; [| discriminate Hpid].
  cbn [res_bind] in Hpid. rewrite Hpid. reflexivity.
Qed.

Lemma minus_as_length_refused (accepts : nat -> bool) (idf : bytes) (pid : Z) :
  Py.len idf = 3 ->
  res_bind (Py.decode idf) Py.int16_str = Ok pid ->
  forall (n fuel k0 : nat) (out : list CANFrame),
    (forall k, (k < n)%nat -> accepts (k0 + k)%nat = true) ->
    accepts (k0 + n)%nat = false ->
    (n < fuel)%nat ->
    parse_loop_q accepts fuel (116 :: idf ++ [45]) 5 0 k0 out
    = Some (Raise QueueFull, out ++ repeat (mkCANFrame pid [] false None) n,
            S (k0 + n)).
Proof.
  intros Hlen Hpid.
  destruct (minus_as_length_parsed idf pid Hlen Hpid) as (PM & G).
  induction n as [| n IH]; intros fuel k0 out Hacc Hfull Hfuel;
    (destruct fuel as [| fuel]; [lia |]);
    rewrite (parse_loop_q_at_marker accepts fuel _ 5 0 116 k0 out G eq_refl) by lia;
    rewrite PM.
  - rewrite Nat.add_0_r in *. rewrite Hfull. cbn [repeat]. rewrite app_nil_r.
    reflexivity.
  - rewrite <- (Nat.add_0_r k0) at 1. rewrite (Hacc 0%nat) by lia.
    rewrite (IH fuel (S k0) (out ++ [mkCANFrame pid [] false None])).
    + cbn [repeat]. rewrite <- app_assoc. cbn [app]. do 2 f_equal. lia.
    + intros k Hk. replace (S k0 + k)%nat with (k0 + S k)%nat by lia.
      apply Hacc. lia.
    + replace (S k0 + n)%nat with (k0 + S n)%nat by lia. exact Hfull.
    + lia.
Qed.

(** X8: the length check only refuses values above 8.  With [-] where the
    length digit should be, the length is -3 and a standard fragment has
    total length 0: when the buffer ends there, a frame with an empty
    payload is queued and [pos] stays on the marker, so the loop parses
    the same bytes again and queues the same frame again.  The turn ends
    only when the queue refuses a frame: [queue.Full] then reaches the
    outer handler, which empties the buffer and tries to queue the
    exception.  As long as the queue has room the loop goes on. *)
Theorem minus_as_length_fills_queue
    (accepts : nat -> bool) (idf : bytes) (pid : Z) :
  Py.len idf = 3 ->
  res_bind (Py.decode idf) Py.int16_str = Ok pid ->
  let frame := mkCANFrame pid [] false None in
  (forall n fuel : nat,
     (forall k, (k < n)%nat -> accepts k = true) -> accepts n = false ->
     (n < fuel)%nat ->
     rx_turn_q accepts fuel [] (116 :: idf ++ [45])
     = Some ([], map IpcFrame (repeat frame n)
                 ++ (if accepts (S n) then [IpcException QueueFull] else [])))
  /\ ((forall k, accepts k = true) ->
      forall fuel, rx_turn_q accepts fuel [] (116 :: idf ++ [45]) = None).
Proof.
  intros Hlen Hpid frame. split.
  - intros n fuel Hacc Hfull Hfuel. unfold rx_turn_q. cbn [app].
    assert (L : Py.len (116 :: idf ++ [45]) = 5)
      by (unfold Py.len in *; cbn [length]; rewrite length_app; cbn [length]; lia).
    rewrite L.
    rewrite (minus_as_length_refused accepts idf pid Hlen Hpid n fuel 0 []
               Hacc Hfull Hfuel).
    reflexivity.
  - intros Hall fuel. unfold rx_turn_q. cbn [app].
    assert (L : Py.len (116 :: idf ++ [45]) = 5)
      by (unfold Py.len in *; cbn [length]; rewrite length_app; cbn [length]; lia).
    rewrite L.
    destruct (minus_as_length_parsed idf pid Hlen Hpid) as (PM & G).
    assert (N : forall k out,
               parse_loop_q accepts fuel (116 :: idf ++ [45]) 5 0 k out = None).
    { induction fuel as [| fuel IH]; intros k out; [reflexivity |].
      rewrite (parse_loop_q_at_marker accepts fuel _ 5 0 116 k out G eq_refl) by lia.
      rewrite PM, Hall. apply IH. }
    rewrite N. reflexivity.
Qed.

Lemma minus_as_length_fills_queue_witness :
  rx_turn_q (fun k => (k <? 3)%nat) 4 [] (Py.b "t123-")
  = Some ([], [IpcFrame (mkCANFrame 0x123 [] false None);
               IpcFrame (mkCANFrame 0x123 [] false None);
               IpcFrame (mkCANFrame 0x123 [] false None)]).
Proof.
  refine (proj1 (minus_as_length_fills_queue (fun k => (k <? 3)%nat) (Py.b "123")
                   0x123 eq_refl eq_refl) 3%nat 4%nat _ eq_refl _).
  - intros k Hk. apply Nat.ltb_lt. exact Hk.
  - lia.
Defined.

(** ** No exception leaves the parsing loop *)

Lemma getitem_range (s : bytes) (i x : Z) :
  Py.getitem s i = Ok x -> - Py.len s <= i < Py.len s.
Proof.
  unfold Py.getitem. cbv zeta.
  destruct (Z.ltb_spec i 0);
    match goal with
    | |- context [(?a <? 0) || (?n <=? ?b)] =>
        destruct (Z.ltb_spec a 0); destruct (Z.leb_spec n b)
    end; cbn [orb]; try discriminate; lia.
Qed.

Lemma getitem_in_range (s : bytes) (i : Z) :
  - Py.len s <= i < Py.len s -> exists x, Py.getitem s i = Ok x.
Proof.
  intros R. unfold Py.getitem. cbv zeta.
  destruct (Z.ltb_spec i 0);
    match goal with
    | |- context [(?a <? 0) || (?n <=? ?b)] =>
        destruct (Z.ltb_spec a 0); destruct (Z.leb_spec n b)
    end; cbn [orb]; try lia;
    match goal with
    | |- context [nth_error s ?k] =>
        destruct (nth_error s k) as [y |] eqn:E;
        [exists y; reflexivity
        | apply nth_error_None in E; unfold Py.len in *; lia]
    end.
Qed.

Lemma skip_loop_ok (k : nat) (s : bytes) :
  forall pos, - Py.len s <= pos ->
  exists p, skip_loop k s (Py.len s) pos = Ok p /\ pos <= p.
Proof.
  induction k as [| k IH]; intros pos H; cbn [skip_loop].
  - exists pos. split; [reflexivity | lia].
  - destruct (Z.ltb_spec pos (Py.len s)) as [Lt | Ge].
    + destruct (getitem_in_range s pos (conj H Lt)) as (x & ->).
      cbn [res_bind]. destruct (negb (Py.contains (Py.b "Tt") x)).
      * destruct (IH (pos + 1)) as (p & E & Hp); [lia |].
        exists p. split; [exact E | lia].
      * exists pos. split; [reflexivity | lia].
    + exists pos. split; [reflexivity | lia].
Qed.

Lemma parsed_position (s : bytes) (pos : Z) (f : CANFrame) (p : Z) :
  parse_message s (Py.len s) pos = Parsed f p -> - Py.len s < p.
Proof.
  unfold parse_message. cbv zeta.
  repeat match goal with
         | |- context [match ?x with _ => _ end] => destruct x eqn:?
         end;
    intros H; try discriminate H;
    apply (f_equal (fun a => match a with
                             | Parsed _ q | Except _ q => q
                             | Break => 0
                             end)) in H;
    cbv beta iota in H; subst p;
    match goal with
    | G : Py.getitem s (pos + _ - 1) = Ok _ |- _ => apply getitem_range in G; lia
    end.
Qed.

Lemma except_position_bound (s : bytes) (pos : Z) (e : exn) (p : Z) :
  - Py.len s <= pos ->
  parse_message s (Py.len s) pos = Except e p -> - Py.len s <= p.
Proof.
  intros Hpos. unfold parse_message. cbv zeta.
  repeat match goal with
         | |- context [match ?x with _ => _ end] => destruct x eqn:?
         end;
    intros H; try discriminate H;
    apply (f_equal (fun a => match a with
                             | Parsed _ q | Except _ q => q
                             | Break => 0
                             end)) in H;
    cbv beta iota in H; subst p; try lia;
    match goal with
    | G : Py.getitem s (pos + _ - 1) = Ok _ |- _ => apply getitem_range in G; lia
    end.
Qed.

Lemma parse_loop_no_raise (fuel : nat) (s : bytes) :
  forall pos out r out',
    - Py.len s <= pos ->
    parse_loop fuel s (Py.len s) pos out = Some (r, out') ->
    exists p, r = Ok p.
Proof.
  induction fuel as [| fuel IH]; intros pos out r out' Hpos; [discriminate |].
  cbn [parse_loop]. unfold find_marker.
  destruct (skip_loop_ok (Z.to_nat (Py.len s - pos)) s pos Hpos) as (p0 & -> & Hp0).
  destruct (p0 >=? Py.len s); [intros [= <- _]; eexists; reflexivity |].
  destruct (parse_message s (Py.len s) p0) as [| e p | f p] eqn:PM.
  - intros [= <- _]. eexists; reflexivity.
  - apply IH. apply except_position_bound in PM; lia.
  - apply IH. apply parsed_position in PM. lia.
Qed.

Lemma parse_loop_q_ends (accepts : nat -> bool) (fuel : nat) (s : bytes) :
  forall pos k out r out' k',
    - Py.len s <= pos ->
    parse_loop_q accepts fuel s (Py.len s) pos k out = Some (r, out', k') ->
    (exists p, r = Ok p)
    \/ (r = Raise QueueFull /\ exists j, k' = S j /\ accepts j = false).
Proof.
  induction fuel as [| fuel IH]; intros pos k out r out' k' Hpos; [discriminate |].
  cbn [parse_loop_q]. unfold find_marker.
  destruct (skip_loop_ok (Z.to_nat (Py.len s - pos)) s pos Hpos) as (p0 & -> & Hp0).
  destruct (p0 >=? Py.len s); [intros [= <- _ _]; left; eexists; reflexivity |].
  destruct (parse_message s (Py.len s) p0) as [| e p | f p] eqn:PM.
  - intros [= <- _ _]. left. eexists; reflexivity.
  - apply IH. apply except_position_bound in PM; lia.
  - destruct (accepts k) eqn:A.
    + apply IH. apply parsed_position in PM. lia.
    + intros [= <- _ <-]. right. split; [reflexivity |]. exists k.
      split; [reflexivity | exact A].
Qed.

Lemma parse_loop_q_room (accepts : nat -> bool) (fuel : nat) (s : bytes)
    (buf_len : Z) :
  (forall k, accepts k = true) ->
  forall pos k out,
    option_map (fun x => fst x) (parse_loop_q accepts fuel s buf_len pos k out)
    = parse_loop fuel s buf_len pos out.
Proof.
  intros Hall. induction fuel as [| fuel IH]; intros pos k out; [reflexivity |].
  cbn [parse_loop_q parse_loop].
  destruct (find_marker s buf_len pos) as [p0 | e]; [| reflexivity].
  destruct (p0 >=? buf_len); [reflexivity |].
  destruct (parse_message s buf_len p0) as [| e p | f p];
    [reflexivity | apply IH | rewrite Hall; apply IH].
Qed.

(** X9: whatever bytes arrive, what a turn of the receive loop that ends
    has queued are frames, followed at most by the [queue.Full] of a frame
    the queue refused: parsing itself never lets an exception reach the
    outer handler (positions stay in the range Python indexing accepts),
    so malformed input is never reported to the main process.  When the
    queue has room for every frame, only frames are queued and the turn is
    the one computed without regard to the queue. *)
Theorem rx_turn_reports_only_full_queue
    (accepts : nat -> bool) (fuel : nat) (buf chunk buf' : bytes) (q : list ipc) :
  rx_turn_q accepts fuel buf chunk = Some (buf', q) ->
  (exists frames,
      q = map IpcFrame frames
      \/ (q = map IpcFrame frames ++ [IpcException QueueFull] /\ buf' = [])
      \/ (q = map IpcFrame frames /\ buf' = []
          /\ exists j, accepts j = false))
  /\ ((forall k, accepts k = true) ->
      rx_turn fuel buf chunk = Some (buf', q)
      /\ Forall (fun msg => exists frame, msg = IpcFrame frame) q).
Proof.
  unfold rx_turn_q, rx_turn. intros H. split.
  - destruct (parse_loop_q accepts fuel (buf ++ chunk) (Py.len (buf ++ chunk)) 0 0 [])
      as [[[r out] k'] |] eqn:P; [| discriminate H].
    pose proof (len_nonneg (buf ++ chunk)) as L0.
    destruct (parse_loop_q_ends accepts fuel (buf ++ chunk) 0 0 [] r out k'
                ltac:(lia) P) as [(p & ->) | (-> & j & -> & A)].
    + injection H as _ <-. exists out. left. reflexivity.
    + exists out. destruct (accepts (S j)); injection H as <- <-.
      * right. left. split; reflexivity.
      * right. right. rewrite app_nil_r. repeat split. exists j. exact A.
  - intros Hall.
    pose proof (parse_loop_q_room accepts fuel (buf ++ chunk)
                  (Py.len (buf ++ chunk)) Hall 0 0%nat []) as R.
    destruct (parse_loop_q accepts fuel (buf ++ chunk) (Py.len (buf ++ chunk)) 0 0 [])
      as [[[r out] k'] |] eqn:P; [| discriminate H].
    cbn [option_map fst] in R. rewrite <- R.
    pose proof (len_nonneg (buf ++ chunk)) as L0.
    destruct (parse_loop_q_ends accepts fuel (buf ++ chunk) 0 0 [] r out k'
                ltac:(lia) P) as [(p & ->) | (_ & j & _ & A)];
      [| rewrite Hall in A; discriminate A].
    split; [exact H |]. injection H as _ <-.
    apply Forall_forall. intros msg I. apply in_map_iff in I as (f & <- & _).
    exists f. reflexivity.
Qed.

Lemma rx_turn_reports_only_full_queue_witness :
  rx_turn 5 [0; 200] (Py.b "tZZ" ++ [255] ++ Py.b "t1230x_T12")
  = Some (Py.b "T12", [IpcFrame (mkCANFrame 0x123 [] false None)]).
Proof.
  refine (proj1 (proj2 (rx_turn_reports_only_full_queue (fun _ => true) 5 [0; 200]
                          (Py.b "tZZ" ++ [255] ++ Py.b "t1230x_T12")
                          (Py.b "T12") [IpcFrame (mkCANFrame 0x123 [] false None)]
                          eq_refl) _)).
  intros k. reflexivity.
Defined.

(** ** The complete handshake *)

Lemma init_adapter_run (bitrate : option Z) (code : Z) (c : conn) :
  speed_code bitrate = Ok code ->
  _init_adapter bitrate c =
  let log1 := conn_log c ++ [FlushInput; Write [83; 48 + code; 13]; Flush] in
  match ack_loop (conn_rx c) with
  | (Raise e, rx1) => (Raise e, mkConn (Some ACK_TIMEOUT) rx1 log1)
  | (Ok _, rx1) =>
      match ack_loop rx1 with
      | (Raise e, rx2) =>
          (Raise e, mkConn (Some ACK_TIMEOUT) rx2 (log1 ++ [Write [79; 13]; Flush]))
      | (Ok _, rx2) =>
          (Ok tt, mkConn (Some ACK_TIMEOUT) rx2 (conn_log c ++ init_calls code))
      end
  end.
Proof.
  intros E. pose proof (speed_code_range _ _ E) as R.
  unfold _init_adapter. rewrite E, format_d_digit by lia.
  unfold bind, sleep, ret, call. cbn [conn_log conn_rx conn_timeout].
  rewrite wait_for_ack_run. cbn [conn_log conn_rx conn_timeout fst snd].
  destruct (ack_loop (conn_rx c)) as [[[] | e1] rx1]; cbn [fst snd].
  - rewrite wait_for_ack_run. cbn [conn_log conn_rx conn_timeout fst snd].
    destruct (ack_loop rx1) as [[[] | e2] rx2]; cbn [fst snd];
      unfold init_calls; rewrite <- !app_assoc; reflexivity.
  - rewrite <- !app_assoc. reflexivity.
Qed.

(** X10: [_init_adapter] returns exactly when each of its two commands is
    answered by an acknowledgement, other bytes before each being dropped;
    it has then flushed the input, written [S] with the speed code,
    flushed, written [O], flushed, and flushed the input again, in this
    order, and has read up to the second acknowledgement. *)
Theorem init_adapter_acknowledged
    (bitrate : option Z) (code : Z) (j1 j2 : list Z) (rest : list (option Z))
    (c : conn) :
  speed_code bitrate = Ok code ->
  Forall junk_byte j1 -> Forall junk_byte j2 ->
  _init_adapter bitrate
    (mkConn (conn_timeout c)
            (map Some j1 ++ Some 13 :: map Some j2 ++ Some 13 :: rest) (conn_log c))
  = (Ok tt, mkConn (Some ACK_TIMEOUT) rest (conn_log c ++ init_calls code))
  /\ (forall c1 c2, _init_adapter bitrate c1 = (Ok tt, c2) ->
        exists k1 k2,
          Forall junk_byte k1 /\ Forall junk_byte k2
          /\ conn_rx c1 = map Some k1 ++ Some 13 :: map Some k2 ++ Some 13 :: conn_rx c2
          /\ conn_log c2 = conn_log c1 ++ init_calls code).
Proof.
  intros E J1 J2. split.
  - rewrite (init_adapter_run bitrate code _ E). cbv zeta.
    cbn [conn_rx conn_log conn_timeout].
    rewrite (ack_loop_junk j1 _ J1). cbn [ack_loop].
    destruct (list_eq_dec Z.eq_dec [13] NACK) as [D | _]; [discriminate D |].
    destruct (list_eq_dec Z.eq_dec [13] ACK) as [_ | D]; [| contradiction D; reflexivity].
    rewrite (ack_loop_junk j2 _ J2). cbn [ack_loop].
    destruct (list_eq_dec Z.eq_dec [13] NACK) as [D | _]; [discriminate D |].
    destruct (list_eq_dec Z.eq_dec [13] ACK) as [_ | D]; [| contradiction D; reflexivity].
    reflexivity.
  - intros c1 c2. rewrite (init_adapter_run bitrate code c1 E). cbv zeta.
    destruct (ack_loop (conn_rx c1)) as [[[] | e1] rx1] eqn:A1; [| discriminate].
    destruct (ack_loop rx1) as [[[] | e2] rx2] eqn:A2; [| discriminate].
    intros [= <-]. cbn [conn_rx conn_log].
    apply ack_loop_ok in A1 as (k1 & K1 & ->).
    apply ack_loop_ok in A2 as (k2 & K2 & ->).
    exists k1, k2. repeat split; assumption.
Qed.

Lemma init_adapter_acknowledged_witness :
  _init_adapter (Some 250000)
    (mkConn None [Some 65; Some 13; Some 13; Some 84] [])
  = (Ok tt, mkConn (Some ACK_TIMEOUT) [Some 84] (init_calls 5)).
Proof.
  refine (proj1 (init_adapter_acknowledged (Some 250000) 5 [65] [] [Some 84]
                   (mkConn None [] []) eq_refl _ _)).
  - repeat constructor; unfold junk_byte; lia.
  - constructor.
Defined.

(** X11: when the bit-rate command is acknowledged and the open command is
    not (a negative acknowledgement, or no byte in time), [_init_adapter]
    raises the corresponding error after writing both commands, each with
    its flush, and does not flush the input a second time. *)
Theorem init_adapter_open_refused
    (bitrate : option Z) (code : Z) (j1 j2 : list Z) (rest : list (option Z))
    (c : conn) :
  speed_code bitrate = Ok code ->
  Forall junk_byte j1 -> Forall junk_byte j2 ->
  let before answer :=
    mkConn (conn_timeout c)
           (map Some j1 ++ Some 13 :: map Some j2 ++ answer :: rest) (conn_log c) in
  let after :=
    mkConn (Some ACK_TIMEOUT) rest
           (conn_log c ++ [FlushInput; Write [83; 48 + code; 13]; Flush;
                           Write [79; 13]; Flush]) in
  _init_adapter bitrate (before (Some 7))
    = (Raise (DriverError "SLCAN NACK in response"), after)
  /\ _init_adapter bitrate (before None)
    = (Raise (DriverError "SLCAN ACK timeout"), after).
Proof.
  intros E J1 J2 before after. unfold before, after.
  split; rewrite (init_adapter_run bitrate code _ E); cbv zeta;
    cbn [conn_rx conn_log conn_timeout];
    rewrite (ack_loop_junk j1 _ J1); cbn [ack_loop];
    (destruct (list_eq_dec Z.eq_dec [13] NACK) as [D | _]; [discriminate D |]);
    (destruct (list_eq_dec Z.eq_dec [13] ACK) as [_ | D];
     [| contradiction D; reflexivity]);
    rewrite (ack_loop_junk j2 _ J2); cbn [ack_loop].
  - destruct (list_eq_dec Z.eq_dec [7] NACK) as [_ | D];
      [| contradiction D; reflexivity].
    rewrite <- !app_assoc. reflexivity.
  - rewrite <- !app_assoc. reflexivity.
Qed.

Lemma init_adapter_open_refused_witness :
  _init_adapter None (mkConn None [Some 13; Some 10; Some 7] [])
  = (Raise (DriverError "SLCAN NACK in response"),
     mkConn (Some ACK_TIMEOUT) []
            [FlushInput; Write [83; 56; 13]; Flush; Write [79; 13]; Flush]).
Proof.
  refine (proj1 (init_adapter_open_refused None 8 [] [10] [] (mkConn None [] [])
                   eq_refl _ _)).
  - constructor.
  - repeat constructor; unfold junk_byte; lia.
Defined.

(** ** The transmit thread *)

Lemma conn_eta (c : conn) :
  mkConn (conn_timeout c) (conn_rx c) (conn_log c ++ []) = c.
Proof. destruct c. cbn. rewrite app_nil_r. reflexivity. Qed.

Lemma tx_thread_app (repr : ipc -> string) (pre tailg : list (option ipc)) :
  Forall (fun g => g <> Some (IpcString IPC_COMMAND_STOP)) pre ->
  forall c,
    _tx_thread repr (pre ++ tailg) c =
    let '(c', q, unread) :=
      _tx_thread repr tailg (mkConn (conn_timeout c) (conn_rx c)
                                    (conn_log c ++ sent_lines (frames_in pre))) in
    (c', errors_in repr pre ++ q, unread).
Proof.
  induction 1 as [| g pre Hg _ IH]; intros c.
  - cbn [app frames_in errors_in sent_lines flat_map]. rewrite conn_eta.
    destruct (_tx_thread repr tailg c) as [[c' q] unread]. reflexivity.
  - destruct g as [[f | s | e] |]; cbn [app _tx_thread].
    + unfold _send_frame, bind, call. cbn [conn_timeout conn_rx conn_log].
      rewrite IH. cbn [conn_timeout conn_rx conn_log frames_in errors_in flat_map app].
      fold (frames_in pre). fold (errors_in repr pre).
      cbn [sent_lines flat_map app]. fold (sent_lines (frames_in pre)).
      rewrite <- !app_assoc. cbn [app].
      destruct (_tx_thread repr tailg _) as [[c' q] unread]. reflexivity.
    + destruct (String.eqb_spec s IPC_COMMAND_STOP) as [-> | N];
        [contradiction Hg; reflexivity |].
      rewrite IH. cbn [frames_in errors_in flat_map app].
      fold (frames_in pre). fold (errors_in repr pre).
      destruct (_tx_thread repr tailg _) as [[c' q] unread]. reflexivity.
    + rewrite IH. cbn [frames_in errors_in flat_map app].
      fold (frames_in pre). fold (errors_in repr pre).
      destruct (_tx_thread repr tailg _) as [[c' q] unread]. reflexivity.
    + rewrite IH. cbn [frames_in errors_in flat_map app].
      fold (frames_in pre). fold (errors_in repr pre).
      destruct (_tx_thread repr tailg _) as [[c' q] unread]. reflexivity.
Qed.

(** X12: the transmit thread handles what it gets from [tx_queue] in order
    up to the first stop command: each frame is written as its line and
    flushed; each other object is answered by a [DriverError] put on
    [rx_queue], whose message ends with the text [%r] gives for the object
    ([repr], whatever it is); an empty queue is waited on again.  Nothing
    after the stop command is looked at, and nothing is read from the
    port. *)
Theorem tx_thread_until_stop
    (repr : ipc -> string) (pre later : list (option ipc)) (c : conn) :
  Forall (fun g => g <> Some (IpcString IPC_COMMAND_STOP)) pre ->
  let c' := mkConn (conn_timeout c) (conn_rx c)
                   (conn_log c ++ sent_lines (frames_in pre)) in
  _tx_thread repr (pre ++ Some (IpcString IPC_COMMAND_STOP) :: later) c
    = (c', errors_in repr pre, later)
  /\ _tx_thread repr pre c = (c', errors_in repr pre, []).
Proof.
  intros H c'. split.
  - rewrite (tx_thread_app repr pre _ H c). cbn [_tx_thread].
    change (String.eqb IPC_COMMAND_STOP IPC_COMMAND_STOP) with true. cbv iota.
    rewrite app_nil_r. reflexivity.
  - rewrite <- (app_nil_r pre) at 1. rewrite (tx_thread_app repr pre [] H c).
    cbn [_tx_thread]. rewrite app_nil_r. reflexivity.
Qed.

Lemma tx_thread_until_stop_witness :
  _tx_thread (fun _ => "'halt'"%string)
             [Some (IpcFrame (mkCANFrame 1 [] false None)); None;
              Some (IpcString "halt");
              Some (IpcString "stop");
              Some (IpcFrame (mkCANFrame 2 [] false None))]
             (mkConn None [] [])
  = (mkConn None [] [Write (Py.b "t0010" ++ [CR]); Flush],
     [IpcException (DriverError "IO process received unknown IPC command: 'halt'")],
     [Some (IpcFrame (mkCANFrame 2 [] false None))]).
Proof.
  refine (proj1 (tx_thread_until_stop (fun _ => "'halt'"%string)
                   [Some (IpcFrame (mkCANFrame 1 [] false None)); None;
                    Some (IpcString "halt")]
                   [Some (IpcFrame (mkCANFrame 2 [] false None))]
                   (mkConn None [] []) _)).
  repeat constructor; discriminate.
Defined.

Lemma written_app (l1 l2 : list conn_op) :
  written (l1 ++ l2) = written l1 ++ written l2.
Proof. apply flat_map_app. Qed.

Lemma written_sent_lines (fs : list CANFrame) :
  written (sent_lines fs) = stream fs.
Proof.
  induction fs as [| f fs IH]; [reflexivity |].
  cbn [sent_lines flat_map app written stream]. fold (sent_lines fs).
  fold (written (sent_lines fs)). fold (stream fs).
  rewrite IH. reflexivity.
Qed.

Lemma frames_in_frames (repr : ipc -> string) (fs : list CANFrame) :
  frames_in (map (fun f => Some (IpcFrame f)) fs) = fs
  /\ errors_in repr (map (fun f => Some (IpcFrame f)) fs) = []
  /\ Forall (fun g => g <> Some (IpcString IPC_COMMAND_STOP))
            (map (fun f => Some (IpcFrame f)) fs).
Proof.
  induction fs as [| f fs (IH1 & IH2 & IH3)]; [repeat split; constructor |].
  cbn [map frames_in errors_in flat_map app].
  fold (frames_in (map (fun f => Some (IpcFrame f)) fs)).
  fold (errors_in repr (map (fun f => Some (IpcFrame f)) fs)).
  rewrite IH1, IH2. repeat split. constructor; [discriminate | exact IH3].
Qed.

(** X13: what the transmit thread writes for a sequence of valid frames,
    cut into reads at any places, is parsed by the receive thread into the
    same frames in the same order, and nothing is left in its buffer. *)
Theorem transmitted_frames_are_received
    (repr : ipc -> string) (fs : list CANFrame) (c : conn)
    (chunks : list bytes) (fuel : nat) :
  Forall valid_frame fs ->
  conn_log c = [] ->
  concat chunks
    = written (conn_log (fst (fst
        (_tx_thread repr (map (fun f => Some (IpcFrame f)) fs) c)))) ->
  (length (concat chunks) < fuel)%nat ->
  _rx_thread fuel chunks [] = Some ([], map IpcFrame (map received fs)).
Proof.
  intros V Hlog E Hfuel.
  destruct (frames_in_frames repr fs) as (F1 & _ & F3).
  rewrite (proj2 (tx_thread_until_stop repr _ [] c F3)) in E.
  cbn [fst conn_log] in E. rewrite Hlog, F1 in E. cbn [app] in E.
  rewrite written_sent_lines in E. rewrite E in Hfuel.
  apply rx_thread_stream; [exact V | apply stalled_nil | exact E | exact Hfuel].
Qed.

Lemma transmitted_frames_are_received_witness :
  _rx_thread 30 [Py.b "T0000"; Py.b "00AB2c"; Py.b "afe" ++ [CR] ++ Py.b "t7"; Py.b "FF0" ++ [CR]] []
  = Some ([], [IpcFrame (mkCANFrame 0xAB [0xca; 0xfe] true None);
               IpcFrame (mkCANFrame 0x7FF [] false None)]).
Proof.
  refine (transmitted_frames_are_received (fun _ => EmptyString)
            [mkCANFrame 0xAB [0xca; 0xfe] true None; mkCANFrame 0x7FF [] false None]
            (mkConn None [] [])
            [Py.b "T0000"; Py.b "00AB2c"; Py.b "afe" ++ [CR] ++ Py.b "t7"; Py.b "FF0" ++ [CR]]
            30 _ eq_refl eq_refl _).
  - repeat constructor; cbn; lia.
  - vm_compute. lia.
Defined.

(** ** The IO process as a whole *)

Lemma tx_thread_log (repr : ipc -> string) (gets : list (option ipc)) :
  forall c, exists calls,
    conn_log (fst (fst (_tx_thread repr gets c))) = conn_log c ++ calls
    /\ Forall (fun op => op <> Close) calls.
Proof.
  induction gets as [| g gets IH]; intros c.
  - exists []. cbn. rewrite app_nil_r. split; [reflexivity | constructor].
  - destruct g as [[f | s | e] |]; cbn [_tx_thread].
    + unfold _send_frame, bind, call. cbn [conn_timeout conn_rx conn_log].
      match goal with
      | |- context [_tx_thread repr gets ?c1] => destruct (IH c1) as (calls & E & F)
      end.
      destruct (_tx_thread repr gets _) as [[c' q] unread]. cbn [fst conn_log] in *.
      exists ([Write (frame_line f); Flush] ++ calls).
      rewrite E, <- !app_assoc. split; [reflexivity |].
      repeat constructor; try discriminate. exact F.
    + destruct (String.eqb s IPC_COMMAND_STOP).
      * exists []. cbn. rewrite app_nil_r. split; [reflexivity | constructor].
      * destruct (IH c) as (calls & E & F).
        destruct (_tx_thread repr gets c) as [[c' q] unread]. exists calls.
        split; assumption.
    + destruct (IH c) as (calls & E & F).
      destruct (_tx_thread repr gets c) as [[c' q] unread]. exists calls.
      split; assumption.
    + apply IH.
Qed.

Lemma init_adapter_log (bitrate : option Z) (c : conn) :
  exists calls,
    conn_log (snd (_init_adapter bitrate c)) = conn_log c ++ calls
    /\ Forall (fun op => op <> Close) calls.
Proof.
  destruct (speed_code bitrate) as [code | e] eqn:E.
  - rewrite (init_adapter_run bitrate code c E). cbv zeta.
    destruct (ack_loop (conn_rx c)) as [[[] | e1] rx1].
    + destruct (ack_loop rx1) as [[[] | e2] rx2]; cbn [snd conn_log];
        eexists; (split; [try rewrite <- app_assoc; reflexivity |]);
        repeat constructor; discriminate.
    + cbn [snd conn_log]. eexists. split; [reflexivity |].
      repeat constructor; discriminate.
  - unfold _init_adapter. rewrite E. exists []. cbn.
    rewrite app_nil_r. split; [reflexivity | constructor].
Qed.

(** X14: however [_io_process] goes (unknown bit rate, handshake refused or
    timed out, transmit loop ended by the stop command or by the death of
    the receive thread), the last things it does on the port are to write
    the close command [C], flush and close; the port is not closed before
    that. *)
Theorem io_process_always_tears_down
    (repr : ipc -> string) (bitrate : option Z) (gets : list (option ipc))
    (c : conn) :
  exists calls,
    snd (_io_process_log repr bitrate gets c)
      = conn_log c ++ calls ++ teardown_calls
    /\ Forall (fun op => op <> Close) calls.
Proof.
  unfold _io_process_log.
  destruct (init_adapter_log bitrate c) as (calls1 & E1 & F1).
  destruct (_init_adapter bitrate c) as [[[] | e] c1]; cbn [snd] in E1.
  - destruct (tx_thread_log repr gets c1) as (calls2 & E2 & F2).
    destruct (_tx_thread repr gets c1) as [[c2 q] unread]. cbn [fst] in E2.
    unfold _stop_adapter, bind, call. cbn [snd conn_log conn_timeout conn_rx].
    exists (calls1 ++ calls2). rewrite E2, E1, <- !app_assoc.
    split; [reflexivity | apply Forall_app; split; assumption].
  - unfold _stop_adapter, bind, call. cbn [snd conn_log conn_timeout conn_rx].
    exists calls1. rewrite E1, <- !app_assoc. split; [reflexivity | assumption].
Qed.

Lemma send_live (self : SLCAN) (message_id : Z) (message : bytes) (extended : bool) :
  proc_alive self = true ->
  send self message_id message extended
  = (Ok tt, mkSLCAN true (_rx_queue self)
                    (_tx_queue self ++ [IpcFrame (mkCANFrame message_id message
                                                             extended None)])
                    (rx_waits self)).
Proof. intros A. unfold send, _check_alive. rewrite A. reflexivity. Qed.

Lemma send_all_queue (fs : list CANFrame) :
  forall self, proc_alive self = true ->
    proc_alive (send_all self fs) = true
    /\ _tx_queue (send_all self fs)
       = _tx_queue self ++ map IpcFrame (map received fs)
    /\ _rx_queue (send_all self fs) = _rx_queue self.
Proof.
  unfold send_all. induction fs as [| f fs IH]; intros self A.
  - cbn. rewrite app_nil_r. repeat split; assumption.
  - cbn [fold_left]. rewrite (send_live self _ _ _ A). cbn [snd].
    match goal with
    | |- context [fold_left _ fs ?s1] =>
        destruct (IH s1 eq_refl) as (I1 & I2 & I3)
    end.
    rewrite I1, I2, I3. cbn [_tx_queue _rx_queue map]. rewrite <- app_assoc.
    repeat split.
Qed.

(** X15: on a live session with an empty outbound queue, the frames given
    to [send] before [close] are all written by the IO process, in the
    order of the calls: after the calls of the handshake come, for each
    frame, the write of its line and a flush, then the close command, its
    flush and the closing of the port, and nothing else. *)
Theorem sent_frames_written_before_close
    (repr : ipc -> string) (self : SLCAN) (fs : list CANFrame)
    (bitrate : option Z) (code : Z) (j1 j2 : list Z) (rest : list (option Z))
    (c : conn) :
  proc_alive self = true -> _tx_queue self = [] ->
  speed_code bitrate = Ok code ->
  Forall junk_byte j1 -> Forall junk_byte j2 ->
  _io_process_log repr bitrate
    (map Some (_tx_queue (close (send_all self fs))))
    (mkConn (conn_timeout c)
            (map Some j1 ++ Some 13 :: map Some j2 ++ Some 13 :: rest) (conn_log c))
  = (Ok tt,
     conn_log c ++ init_calls code ++ sent_lines (map received fs)
       ++ teardown_calls).
Proof.
  intros A Q E J1 J2.
  destruct (send_all_queue fs self A) as (A' & Q' & _).
  unfold close. rewrite A'. cbn [_tx_queue]. rewrite Q', Q. cbn [app].
  unfold _io_process_log.
  rewrite (proj1 (init_adapter_acknowledged bitrate code j1 j2 rest c E J1 J2)).
  rewrite map_app, map_map. cbn [map].
  destruct (frames_in_frames repr (map received fs)) as (F1 & F2 & F3).
  rewrite (proj1 (tx_thread_until_stop repr _ [] _ F3)).
  cbn [conn_timeout conn_rx conn_log]. rewrite F1.
  unfold _stop_adapter, bind, call, teardown_calls.
  cbn [conn_timeout conn_rx conn_log]. rewrite <- !app_assoc. reflexivity.
Qed.

Lemma sent_frames_written_before_close_witness :
  _io_process_log (fun _ => EmptyString) None
    [Some (IpcFrame (mkCANFrame 0x10 [1] false None)); Some (IpcString "stop")]
    (mkConn None [Some 13; Some 13] [])
  = (Ok tt,
     [FlushInput; Write (Py.b "S8" ++ [CR]); Flush; Write (Py.b "O" ++ [CR]);
      Flush; FlushInput;
      Write (Py.b "t010101" ++ [CR]); Flush;
      Write (Py.b "C" ++ [CR]); Flush; Close]).
Proof.
  refine (sent_frames_written_before_close (fun _ => EmptyString)
            (mkSLCAN true [] [] [])
            [mkCANFrame 0x10 [1] false None] None 8 [] [] []
            (mkConn None [] []) eq_refl eq_refl eq_refl _ _); constructor.
Defined.

(** ** The wait for the readiness signal *)

(** X17: while it waits for the readiness signal, [SLCAN.__init__] takes
    every other object off the inbound queue and forgets it, a frame as
    well as an exception sent by the IO process; as long as the clock has
    not passed the deadline it goes on, and once the signal comes it
    returns with what was queued after the signal. *)
Theorem messages_before_readiness_are_dropped
    (early : list ipc) (readings later : list Q) (deadline : Q) (post : list ipc) :
  Forall (fun msg => msg <> IpcString IPC_SIGNAL_INIT_OK) early ->
  length readings = length early ->
  Forall (fun t => (t <= deadline)%Q) readings ->
  wait_init (readings ++ later) deadline
            (early ++ IpcString IPC_SIGNAL_INIT_OK :: post)
  = Some (Ok tt, post, []).
Proof.
  intros He. revert readings.
  induction He as [| msg early Hm _ IH]; intros readings Hl Hr.
  - destruct readings; [| discriminate Hl]. cbn [app].
    destruct later; reflexivity.
  - destruct readings as [| t readings]; [discriminate Hl |].
    inversion Hr as [| ? ? Ht Hr']; subst.
    cbn [app wait_init queue_get].
    assert (N : is_init_ok (Some msg) = false).
    { destruct msg as [f | s | e]; try reflexivity. cbn [is_init_ok].
      destruct (String.eqb_spec s IPC_SIGNAL_INIT_OK) as [-> | _];
        [contradiction Hm; reflexivity | reflexivity]. }
    rewrite N. unfold Qgtb. apply Qle_bool_iff in Ht. rewrite Ht. cbn [negb].
    apply IH; [ injection Hl as Hl; exact Hl | exact Hr' ].
Qed.

Lemma messages_before_readiness_are_dropped_witness :
  wait_init [1; 2; 9]%Q 5%Q
    [IpcException (DriverError "SLCAN ACK timeout");
     IpcFrame (mkCANFrame 1 [] false None);
     IpcString "init_ok"; IpcFrame (mkCANFrame 2 [] false None)]
  = Some (Ok tt, [IpcFrame (mkCANFrame 2 [] false None)], []).
Proof.
  refine (messages_before_readiness_are_dropped
            [IpcException (DriverError "SLCAN ACK timeout");
             IpcFrame (mkCANFrame 1 [] false None)]
            [1; 2]%Q [9]%Q 5%Q [IpcFrame (mkCANFrame 2 [] false None)] _ eq_refl _).
  - repeat constructor; discriminate.
  - repeat constructor; discriminate.
Defined.

(** ** The facade after start-up *)

(** X18: [close] on a live session queues the stop command behind what is
    already on the outbound queue; after [close], on any session, the
    process is not alive, [send] and [receive] raise the error of the dead
    IO process and change nothing, and another [close] does nothing. *)
Theorem closed_session_refuses
    (self : SLCAN) (message_id : Z) (message : bytes) (extended : bool)
    (timeout : timeout_arg) :
  let closed := close self in
  proc_alive closed = false
  /\ send closed message_id message extended
     = (Raise (DriverError "IO process is dead :("), closed)
  /\ receive closed timeout = (Raise (DriverError "IO process is dead :("), closed)
  /\ close closed = closed
  /\ _tx_queue closed
     = (if proc_alive self
        then _tx_queue self ++ [IpcString IPC_COMMAND_STOP]
        else _tx_queue self)
  /\ _rx_queue closed = _rx_queue self.
Proof.
  intros closed.
  assert (D : proc_alive closed = false)
    by (unfold closed, close; destruct (proc_alive self) eqn:A; [reflexivity | exact A]).
  repeat split.
  - exact D.
  - unfold send, _check_alive. rewrite D. reflexivity.
  - unfold receive, _check_alive. rewrite D. reflexivity.
  - unfold close at 1. rewrite D. reflexivity.
  - unfold closed, close. destruct (proc_alive self); reflexivity.
  - unfold closed, close. destruct (proc_alive self); reflexivity.
Qed.

Lemma receive_frame (self : SLCAN) (f : CANFrame) (q : list ipc) (t : Q) :
  proc_alive self = true -> _rx_queue self = IpcFrame f :: q ->
  receive self (TNum t)
  = (Ok (Some f),
     mkSLCAN true q (_tx_queue self)
             (rx_waits self ++ [if Qgtb (1 # 1000) t then 1 # 1000 else t])).
Proof.
  intros A Q. unfold receive, _check_alive. rewrite A, Q. reflexivity.
Qed.

(** X19: [receive] hands out what the IO process queued in the order it was
    queued: with frames at the head of the inbound queue and an exception
    behind them, as many calls as there are frames return them one by one,
    and the next call raises that exception and takes it off the queue. *)
Theorem receive_in_queue_order
    (fs : list CANFrame) (e : exn) (rest : list ipc) (t : Q) (self : SLCAN) :
  proc_alive self = true ->
  _rx_queue self = map IpcFrame fs ++ IpcException e :: rest ->
  let (results, self') := receive_n (length fs) self (TNum t) in
  results = map (fun f => Ok (Some f)) fs
  /\ fst (receive self' (TNum t)) = Raise e
  /\ _rx_queue (snd (receive self' (TNum t))) = rest
  /\ _tx_queue (snd (receive self' (TNum t))) = _tx_queue self.
Proof.
  revert self. induction fs as [| f fs IH]; intros self A Q.
  - cbn [length receive_n map]. cbn [map app] in Q.
    unfold receive, _check_alive. rewrite A, Q. cbn. repeat split.
  - cbn [length receive_n map]. cbn [map app] in Q.
    rewrite (receive_frame self f _ t A Q).
    match goal with
    | |- context [receive_n (length fs) ?s1 _] =>
        specialize (IH s1 eq_refl eq_refl);
        destruct (receive_n (length fs) s1 (TNum t)) as [results self']
    end.
    destruct IH as (I1 & I2 & I3 & I4). rewrite I1.
    repeat split; assumption.
Qed.

Lemma receive_in_queue_order_witness :
  let self := mkSLCAN true [IpcFrame (mkCANFrame 1 [] false None);
                            IpcFrame (mkCANFrame 2 [] false None);
                            IpcException ValueError;
                            IpcFrame (mkCANFrame 3 [] false None)] [] [] in
  let (results, self') := receive_n 2 self (TNum 1) in
  results = [Ok (Some (mkCANFrame 1 [] false None));
             Ok (Some (mkCANFrame 2 [] false None))]
  /\ fst (receive self' (TNum 1)) = Raise ValueError
  /\ _rx_queue (snd (receive self' (TNum 1))) = [IpcFrame (mkCANFrame 3 [] false None)]
  /\ _tx_queue (snd (receive self' (TNum 1))) = [].
Proof.
  exact (receive_in_queue_order
           [mkCANFrame 1 [] false None; mkCANFrame 2 [] false None]
           ValueError [IpcFrame (mkCANFrame 3 [] false None)] 1%Q
           (mkSLCAN true [IpcFrame (mkCANFrame 1 [] false None);
                          IpcFrame (mkCANFrame 2 [] false None);
                          IpcException ValueError;
                          IpcFrame (mkCANFrame 3 [] false None)] [] [])
           eq_refl eq_refl).
Defined.

(** X20: with a numeric time-out, [receive] on a live session waits on the
    queue once, for the time-out given or for 0.001 when that is greater:
    never for less than 0.001, so that a time-out of zero (or a negative
    one) still gives the queue the time to hand over an object. *)
Theorem receive_waits_at_least_a_millisecond (self : SLCAN) (t : Q) :
  proc_alive self = true ->
  exists w,
    rx_waits (snd (receive self (TNum t))) = rx_waits self ++ [w]
    /\ (1 # 1000 <= w)%Q /\ (t <= w)%Q /\ (w = t \/ w = 1 # 1000).
Proof.
  intros A. unfold receive, _check_alive. rewrite A. cbn [py_max].
  exists (if Qgtb (1 # 1000) t then 1 # 1000 else t). split.
  - destruct (queue_get (_rx_queue self)) as [[[f | s | e] |] q]; reflexivity.
  - unfold Qgtb. destruct (Qle_bool (1 # 1000) t) eqn:E; cbn [negb].
    + apply Qle_bool_iff in E. repeat split;
        [exact E | apply Qle_refl | left; reflexivity].
    + repeat split; [apply Qle_refl | | right; reflexivity].
      destruct (Qlt_le_dec t (1 # 1000)) as [L | G].
      * apply Qlt_le_weak, L.
      * apply Qle_bool_iff in G. rewrite G in E. discriminate E.
Qed.

Lemma receive_waits_at_least_a_millisecond_witness :
  exists w,
    rx_waits (snd (receive (mkSLCAN true [] [] []) (TNum 0))) = [] ++ [w]
    /\ (1 # 1000 <= w)%Q /\ (0 <= w)%Q /\ (w = 0%Q \/ w = 1 # 1000).
Proof.
  exact (receive_waits_at_least_a_millisecond (mkSLCAN true [] [] []) 0%Q eq_refl).
Defined.
